(** * blocky: a seeded identicon generator (src/src/blocky.ts)

    A shallow embedding of the generation pipeline of [blocky.ts]:
    the xorshift engine ([createRandSeed], [rand]), the colour selector
    ([createHSL], [hslToRgb]), the grid synthesizer ([createImageData]) and
    the raster compositor inside [createBuffer].

    Modelling conventions.
    - A JavaScript number is an IEEE-754 double. A number that holds a
      fraction is the rational [Q] it denotes, and every arithmetic
      operation rounds its exact result to the nearest double, ties to
      even ([JS.fl]: 53 significant bits, gradual underflow below 2^-1022).
      Overflow to Infinity is not modelled; the values of this program stay
      far below 2^1024.
    - A number that holds an integer is a [Z]. The bit operators [<<], [>>],
      [^] and [>>> 0] first coerce their operands with ToInt32 (ToUint32),
      which is written out below. A sum or difference of integers is
      rounded like any other ([JS.num]); it is exact up to 2^53 in
      magnitude.
    - The two module-level objects of the source, [randseed] and
      [defaultOptions], are mutated by every call; they are threaded
      explicitly as the state of the process.
    - The PNG library ([pngjs]) is an external collaborator. [new PNG] and
      [PNG.sync.write] are modelled as far as they decide whether
      [createBuffer] returns: the coercion [| 0] of the dimensions, the
      missing buffer of an image without pixels and the errors raised on
      the way. The bytes of the PNG file (zlib) are not modelled: the
      result [Ok png] stands for the file that encodes [png]. *)

From Stdlib Require Import ZArith NArith QArith Qround Qabs Qpower Lia Lqa List
  String Ascii.
From stdpp Require Import base list.

Local Open Scope Z_scope.

(** ** JavaScript number operations used by the source *)

Module JS.

(** ToInt32: the signed 32-bit view of an integer-valued number. *)
Definition toInt32 (x : Z) : Z := (x + 2147483648) mod 4294967296 - 2147483648.

(** ToUint32, i.e. [x >>> 0]. *)
Definition toUint32 (x : Z) : Z := x mod 4294967296.

(** [a << n] for a shift count [0 <= n < 32]. *)
Definition shl (a n : Z) : Z := toInt32 (Z.shiftl (toInt32 a) n).

(** [a >> n], the sign-propagating right shift. *)
Definition sar (a n : Z) : Z := Z.shiftr (toInt32 a) n.

(** [a ^ b]. *)
Definition xor (a b : Z) : Z := Z.lxor (toInt32 a) (toInt32 b).

(** [x < y] on fractions. *)
Definition ltb (x y : Q) : bool := (Qnum x * QDen y <? Qnum y * QDen x)%Z.

(** [Math.floor], [Math.ceil] and [Math.round] (round half up). *)
Definition floor (x : Q) : Z := Qfloor x.
Definition ceil (x : Q) : Z := Qceiling x.
Definition round (x : Q) : Z := Qfloor (x + (1 # 2)).

(** The integer part of a number (truncation towards zero), the first
    step of ToInt32 on a fraction. *)
Definition trunc (x : Q) : Z := if Qle_bool 0%Q x then Qfloor x else Qceiling x.

(** *** Rounding to a double *)

(** The integer nearest to [y], ties to the even one. *)
Definition rne (y : Q) : Z :=
  let f := Qfloor y in
  match (y - inject_Z f ?= 1 # 2)%Q with
  | Lt => f
  | Gt => f + 1
  | Eq => if Z.even f then f else f + 1
  end.

(** The binary exponent of [a > 0]: [2 ^ ilog2 a <= a < 2 ^ (ilog2 a + 1)]. *)
Definition ilog2 (a : Q) : Z :=
  let k := Z.log2 (Qnum a) - Z.log2 (Zpos (Qden a)) in
  if Qle_bool (2 ^ k)%Q a then k else k - 1.

(** The double nearest to [x], ties to even: a multiple of [2 ^ e] where
    [e] leaves 53 significant bits and is at least -1074, the exponent of
    the smallest subnormal. *)
Definition fl (x : Q) : Q :=
  if Qeq_bool x 0 then 0%Q
  else let e := Z.max (ilog2 (Qabs x) - 52) (-1074) in
       (inject_Z (rne (x / 2 ^ e)) * 2 ^ e)%Q.

(** [x + y], [x - y], [x * y] and [x / y] on numbers. *)
Definition fadd (x y : Q) : Q := fl (x + y).
Definition fsub (x y : Q) : Q := fl (x - y).
Definition fmul (x y : Q) : Q := fl (x * y).
Definition fdiv (x y : Q) : Q := fl (x / y).

(** The number that holds the integer [z] after a rounding. *)
Definition num (z : Z) : Z := trunc (fl (inject_Z z)).

(** A string is its sequence of UTF-16 code units ([charCodeAt]). *)
Definition JSString := list Z.

(** The code units of a string literal of printable ASCII characters, for
    which the code unit of a character is its ASCII code. *)
Definition str (s : string) : JSString :=
  List.map (fun c => Z.of_nat (nat_of_ascii c)) (list_ascii_of_string s).

End JS.

Import JS.

(** ** Pseudorandom engine *)

(** [type RandSeed = [number, number, number, number]] *)
Record RandSeed := mkRandSeed { lane0 : Z; lane1 : Z; lane2 : Z; lane3 : Z }.

(** [const randseed: RandSeed = [0, 0, 0, 0]] *)
Definition randseed0 : RandSeed := mkRandSeed 0 0 0 0.

(** [randseed[k]] and [randseed[k] = v] for an index [k = i % 4]. *)
Definition get_lane (k : nat) (rs : RandSeed) : Z :=
  match k with
  | O => lane0 rs
  | 1%nat => lane1 rs
  | 2%nat => lane2 rs
  | _ => lane3 rs
  end.

Definition set_lane (k : nat) (v : Z) (rs : RandSeed) : RandSeed :=
  match k with
  | O => mkRandSeed v (lane1 rs) (lane2 rs) (lane3 rs)
  | 1%nat => mkRandSeed (lane0 rs) v (lane2 rs) (lane3 rs)
  | 2%nat => mkRandSeed (lane0 rs) (lane1 rs) v (lane3 rs)
  | _ => mkRandSeed (lane0 rs) (lane1 rs) (lane2 rs) v
  end.

(** [(v << 5) - v + c], the value that the loop of [createRandSeed] stores
    in a lane that holds [v], for the code unit [c]. Only the shift coerces
    to 32 bits; the subtraction and the addition are ordinary number
    arithmetic, each rounded to a double. *)
Definition lane_step (c v : Z) : Z := num (num (shl v 5 - v) + c).

(** The body of the [for] loop of [createRandSeed], at index [i]:
    [randseed[i % 4] = (randseed[i % 4] << 5) - randseed[i % 4] + seed.charCodeAt(i)]. *)
Definition seed_step (i : nat) (c : Z) (rs : RandSeed) : RandSeed :=
  let k := (i mod 4)%nat in
  set_lane k (lane_step c (get_lane k rs)) rs.

Fixpoint createRandSeed_from (i : nat) (seed : JSString) (rs : RandSeed) : RandSeed :=
  match seed with
  | [] => rs
  | c :: rest => createRandSeed_from (S i) rest (seed_step i c rs)
  end.

(** [createRandSeed(seed)]: the loop starts at [i = 0] on the current
    [randseed]; nothing zeroes the lanes first. *)
Definition createRandSeed (seed : JSString) (rs : RandSeed) : RandSeed :=
  createRandSeed_from 0 seed rs.

(** Computations that read and update [randseed]. *)
Definition Engine (A : Type) : Type := RandSeed -> A * RandSeed.

Definition ret {A} (a : A) : Engine A := fun rs => (a, rs).

Definition bind {A B} (m : Engine A) (k : A -> Engine B) : Engine B :=
  fun rs => let (a, rs') := m rs in k a rs'.

Declare Scope engine_scope.
Delimit Scope engine_scope with engine.
Notation "x <- m ;; k" := (bind m (fun x => k))
  (at level 100, m at next level, right associativity) : engine_scope.

(** [rand()] *)
Definition rand : Engine Q := fun rs =>
  let t := xor (lane0 rs) (shl (lane0 rs) 11) in
  let w := xor (xor (xor (lane3 rs) (sar (lane3 rs) 19)) t) (sar t 8) in
  ((inject_Z (toUint32 w) / inject_Z (toUint32 (shl 1 31)))%Q,
   mkRandSeed (lane1 rs) (lane2 rs) (lane3 rs) w).

(** The state after [n] consecutive draws. *)
Definition draws (n : nat) (rs : RandSeed) : RandSeed :=
  Nat.iter n (fun s => snd (rand s)) rs.

(** *** The engine as the specification words it: four signed 32-bit lanes *)

(** The 32-bit view of the lanes. *)
Definition lanes32 (rs : RandSeed) : RandSeed :=
  mkRandSeed (toInt32 (lane0 rs)) (toInt32 (lane1 rs))
             (toInt32 (lane2 rs)) (toInt32 (lane3 rs)).

(** [lane := 31 * lane + code] with signed 32-bit wrap-around, on lane
    [i mod 4]. *)
Definition fold31_step (i : nat) (c : Z) (rs : RandSeed) : RandSeed :=
  let k := (i mod 4)%nat in
  set_lane k (toInt32 (31 * get_lane k rs + c)) rs.

Fixpoint fold31_from (i : nat) (seed : JSString) (rs : RandSeed) : RandSeed :=
  match seed with
  | [] => rs
  | c :: rest => fold31_from (S i) rest (fold31_step i c rs)
  end.

Definition fold31 (seed : JSString) (rs : RandSeed) : RandSeed :=
  fold31_from 0 seed rs.

(** ** Colour selector *)

(** [type RGB = [number, number, number]] *)
Definition RGB : Type := Z * Z * Z.

Local Open Scope Q_scope.

(** The inner function [hue2rgb] of [hslToRgb]. The literals [1 / 6],
    [1 / 2] and [2 / 3] are quotients of numbers, rounded like every other
    operation; a product [a * b * c] is [(a * b) * c]. *)
Definition hue2rgb (p q t : Q) : Q :=
  let t := if ltb t 0 then fadd t 1 else t in
  let t := if ltb 1 t then fsub t 1 else t in
  if ltb t (fdiv 1 6) then fadd p (fmul (fmul (fsub q p) 6) t)
  else if ltb t (fdiv 1 2) then q
  else if ltb t (fdiv 2 3)
       then fadd p (fmul (fmul (fsub q p) (fsub (fdiv 2 3) t)) 6)
  else p.

(** [hslToRgb(h, s, l)] *)
Definition hslToRgb (h s l : Q) : RGB :=
  let '(r, g, b) :=
    if Qeq_bool s 0 then (l, l, l)
    else
      let q := if ltb l 0.5 then fmul l (fadd 1 s)
               else fsub (fadd l s) (fmul l s) in
      let p := fsub (fmul 2 l) q in
      (hue2rgb p q (fadd h (fdiv 1 3)), hue2rgb p q h,
       hue2rgb p q (fsub h (fdiv 1 3))) in
  (round (fmul r 255), round (fmul g 255), round (fmul b 255)).

(** [createHSL()]: six draws, in the order hue, saturation, lightness. The
    literals [0.6] and [0.4] are the doubles nearest to them. *)
Definition createHSL : Engine (Q * Q * Q) :=
  (h <- rand ;;
   r <- rand ;;
   let s := fadd (fmul r (fl 0.6)) (fl 0.4) in
   l1 <- rand ;;
   l2 <- rand ;;
   l3 <- rand ;;
   l4 <- rand ;;
   let l := fdiv (fadd (fadd (fadd l1 l2) l3) l4) 4 in
   ret (h, s, l))%engine.

(** ** Grid synthesizer *)

(** The outcome of a call: it returns, it throws, or it never returns. *)
Inductive Result (A : Type) : Type :=
| Ok (a : A)
| RangeError
| TypeError
| Diverges.
Arguments Ok {A} a.
Arguments RangeError {A}.
Arguments TypeError {A}.
Arguments Diverges {A}.

(** Sequencing: what is thrown by the first step is thrown by the whole. *)
Definition and_then {A B} (r : Result A) (k : A -> Result B) : Result B :=
  match r with
  | Ok a => k a
  | RangeError => RangeError
  | TypeError => TypeError
  | Diverges => Diverges
  end.

(** [Math.floor(rand() * 2.3)]. The product is taken exactly: on the values
    that [rand] returns, rounding it does not move it across an integer
    ([cell_of_rounded]). *)
Definition cell_of (r : Q) : Z := floor (r * 2.3).

(** The [for] loop filling [row]: [row[x]] is written at [x = row.length],
    so each of the [n] iterations appends one cell. *)
Fixpoint draw_row (n : nat) : Engine (list Z) :=
  match n with
  | O => ret []
  | S n' => (r <- rand ;; row <- draw_row n' ;; ret (cell_of r :: row))%engine
  end.

(** [row.slice(0, e)]: a negative end counts from the end of the array. *)
Definition slice0 (row : list Z) (e : Z) : list Z :=
  take (Z.to_nat (if (e <? 0)%Z then Z.of_nat (length row) + e else e)%Z) row.

(** The callback given to [flatMap]. *)
Definition make_row (dataWidth mirrorWidth : Z) : Engine (list Z) :=
  (row <- draw_row (Z.to_nat dataWidth) ;;
   let reversed := reverse (slice0 row mirrorWidth) in
   ret (row ++ reversed))%engine.

(** [Array(n).fill([]).flatMap(f)]: [f] runs [n] times, in order, and the
    rows are concatenated. *)
Fixpoint flatMap_rows (n : nat) (f : Engine (list Z)) : Engine (list Z) :=
  match n with
  | O => ret []
  | S n' => (row <- f ;; rest <- flatMap_rows n' f ;; ret (row ++ rest))%engine
  end.

(** [createImageData(width, height)]. [Array(height)] throws a RangeError
    unless [height] is an array length. *)
Definition createImageData (width height : Z) : Engine (Result (list Z)) :=
  let dataWidth := ceil (inject_Z width / 2) in
  let mirrorWidth := (width - dataWidth)%Z in
  if ((height <? 0) || (4294967295 <? height))%Z then ret RangeError
  else (data <- flatMap_rows (Z.to_nat height) (make_row dataWidth mirrorWidth) ;;
        ret (Ok data))%engine.

Local Close Scope Q_scope.

(** ** Options and the shared default object *)

(** [type Options]: every field may be omitted. *)
Record Options := mkOptions {
  size : option Z;
  scale : option Z;
  seed : option JSString;
  fgColor : option RGB;
  bgColor : option RGB;
  spotColor : option RGB
}.

(** The shape of the object [defaultOptions]. *)
Record OptionsObject := mkOptionsObject {
  o_scale : Z;
  o_size : Z;
  o_seed : JSString;
  o_fgColor : RGB;
  o_bgColor : RGB;
  o_spotColor : RGB
}.

(** [const defaultOptions = {...}] as the module is loaded. *)
Definition defaultOptions0 : OptionsObject :=
  mkOptionsObject 24 7 [] (0, 0, 0) (255, 255, 255) (0, 0, 0).

(** The module-level state: [randseed] and [defaultOptions]. *)
Record Process := mkProcess {
  randseed : RandSeed;
  defaultOptions : OptionsObject
}.

Definition process0 : Process := mkProcess randseed0 defaultOptions0.

(** [a ?? b] *)
Definition nullish {A} (a : option A) (b : A) : A :=
  match a with
  | Some v => v
  | None => b
  end.

(** ** Raster compositor *)

(** [buffer.constants.MAX_LENGTH], the length above which [Buffer.alloc]
    throws a RangeError: 2^53 - 1 on 64-bit Node.js from version 22 on.
    Older releases have a smaller limit, and an allocation below the limit
    fails when the machine lacks the memory; both are outside the model. *)
Definition kMaxLength : Z := 9007199254740991.

(** [Buffer.alloc(n)]: a zero-filled buffer of [n] bytes. *)
Definition alloc (n : Z) : Result (list Z) :=
  if n <=? kMaxLength then Ok (repeat 0 (Z.to_nat n)) else RangeError.

(** The [PNG] object of pngjs as far as [createBuffer] uses it: its
    dimensions and [data]. The empty list stands for [data = null]; a
    buffer that is there has at least four bytes. *)
Record PNG := mkPNG { png_width : Z; png_height : Z; png_data : list Z }.

(** [new PNG({ width, height, colorType: 2 })], from the constructor of
    pngjs:
    [this.width = options.width | 0; this.height = options.height | 0;]
    [this.data = this.width > 0 && this.height > 0
       ? Buffer.alloc(4 * this.width * this.height) : null]. *)
Definition newPNG (width height : Z) : Result PNG :=
  let w := toInt32 width in
  let h := toInt32 height in
  if (0 <? w) && (0 <? h) then
    and_then (alloc (4 * w * h)) (fun data => Ok (mkPNG w h data))
  else Ok (mkPNG w h []).

(** [png.data] is [null]. *)
Definition no_data (png : PNG) : bool :=
  match png_data png with
  | [] => true
  | _ :: _ => false
  end.

(** [PNG.sync.write(png, {})] as far as it can throw: the header chunk is
    packed with [writeUInt32BE(width)] and [writeUInt32BE(height)], which
    throw a RangeError on a negative number, and the scanline filter
    allocates [(4 * width + 1) * height] bytes. With the options [{}] the
    sample buffer is deflated as it is; an image of width 0 has no
    scanlines and its missing buffer is never read. *)
Definition sync_write (png : PNG) : Result PNG :=
  if (png_width png <? 0) || (png_height png <? 0) then RangeError
  else and_then (alloc ((4 * png_width png + 1) * png_height png))
                (fun _ => Ok png).

(** [data[o] = v] on a byte buffer: the value is stored modulo 256 and a
    store outside the buffer is dropped. *)
Definition put (data : list Z) (o v : Z) : list Z :=
  if o <? 0 then data else <[Z.to_nat o := v mod 256]> data.

(** The values taken by a counter in [for (let k = 0; k < n; k++)]. The
    counter is a number: [k++] is exact up to 2^53 and leaves 2^53 as it
    is, so the loop ends for a bound of at most 2^53 only ([render] has
    the other case). *)
Definition range (n : Z) : list Z := seqZ 0 n.

(** The body of the innermost loop. *)
Definition paint_pixel (options : OptionsObject) (idx : Z) (color : RGB)
    (data : list Z) (y x : Z) : list Z :=
  let '(r, g, b) := color in
  let o := idx + (x + y * o_size options * o_scale options) * 4 in
  put (put (put (put data o r) (o + 1) g) (o + 2) b) (o + 3) 255.

(** The two scaling loops over [y] and [x]. *)
Definition paint_cell (options : OptionsObject) (idx : Z) (color : RGB)
    (data : list Z) : list Z :=
  foldl (fun data y =>
           foldl (fun data x => paint_pixel options idx color data y x)
                 data (range (o_scale options)))
        data (range (o_scale options)).

(** [switch (imageData[i])] *)
Definition pick_color (options : OptionsObject) (cell : option Z) : RGB :=
  match cell with
  | Some 0 => o_bgColor options
  | Some 1 => o_fgColor options
  | _ => o_spotColor options
  end.

(** The loop over [imageData]. [Math.sqrt(imageData.length)] is taken as
    the integer square root; the length is a perfect square. The offsets
    are computed exactly: they are built from non-negative numbers by
    sums and by products with factors of at least 1, so an offset with a
    rounded intermediate result is at least 2^53, like the exact one, and
    both fall outside the buffer, whose length is below 2^53. *)
Definition composite (options : OptionsObject) (imageData : list Z)
    (data : list Z) : list Z :=
  let width := Z.sqrt (Z.of_nat (length imageData)) in
  foldl (fun data i =>
           let row := i / width in
           let col := i mod width in
           let idx := (row * o_size options * o_scale options + col)
                      * o_scale options * 4 in
           let color := pick_color options (imageData !! Z.to_nat i) in
           paint_cell options idx color data)
        data (range (Z.of_nat (length imageData))).

(** The largest number up to which a loop counter counts. *)
Definition max_count : Z := 9007199254740992.

(** Lines 128-169 of [createBuffer]: the [PNG] object, the loops and the
    encoder. The product [options.size * options.scale] is a number. The
    loops reach a store when the grid is not empty and [0 < scale]. The
    first store [png.data[o] = r] throws a TypeError when [png.data] is
    [null]. On a buffer that is there the loops over [y] and [x] run up to
    [scale], which they never reach when it is above 2^53. *)
Definition render (options : OptionsObject) (imageData : list Z) : Result PNG :=
  let imageWidth := num (o_size options * o_scale options) in
  let stores :=
    (0 <? Z.of_nat (length imageData)) && (0 <? o_scale options) in
  and_then (newPNG imageWidth imageWidth) (fun png =>
    if no_data png && stores then TypeError
    else if stores && (max_count <? o_scale options) then Diverges
    else sync_write (mkPNG (png_width png) (png_height png)
                           (composite options imageData (png_data png)))).

(** [createBuffer(optsParam)] for a size and a scale that are integers.
    [const options = defaultOptions] is an alias: every assignment to
    [options] is an assignment to the shared object. [entropy] stands for
    the string [Math.floor(Math.random() * 10 ** 16).toString(16)]. The
    result [Ok png] is the file that [PNG.sync.write] returns for [png]. *)
Definition createBuffer (optsParam : Options) (entropy : JSString)
    (p : Process) : Result PNG * Process :=
  let options := defaultOptions p in
  let options := mkOptionsObject
    (nullish (scale optsParam) (o_scale options))
    (nullish (size optsParam) (o_size options))
    (nullish (seed optsParam) entropy)
    (o_fgColor options) (o_bgColor options) (o_spotColor options) in
  let rs := createRandSeed (o_seed options) (randseed p) in
  let '((h, s, l), rs) := createHSL rs in
  let rgb := hslToRgb h s l in
  let options := mkOptionsObject
    (o_scale options) (o_size options) (o_seed options)
    (nullish (fgColor optsParam) rgb)
    (nullish (bgColor optsParam) (o_bgColor options))
    (nullish (spotColor optsParam) rgb) in
  let '(res, rs) := createImageData (o_size options) (o_size options) rs in
  (and_then res (render options), mkProcess rs options).

(** *** A size or a scale that is not an integer *)

(** [Array(x)] accepts [x] when it is an integer in [0, 2^32 - 1]. *)
Definition is_array_length (x : Q) : bool :=
  Qeq_bool x (inject_Z (Qfloor x))
  && (0 <=? Qfloor x) && (Qfloor x <=? 4294967295).

(** The outcome of a call without its value. *)
Definition outcome {A} (r : Result A) : Result unit :=
  and_then r (fun _ => Ok tt).

(** Lines 128-169 for an image width that is a number with integer part
    [imageWidth], followed up to the statement that ends the call.
    [stores] tells whether the loops reach a store and [endless] whether
    their bound is above 2^53. With a fractional scale the stores into a
    buffer that is there never throw (a store at an offset that is not an
    index of the buffer is dropped), so only their presence on a missing
    buffer matters. *)
Definition image_route (imageWidth : Z) (stores endless : bool) : Result unit :=
  and_then (newPNG imageWidth imageWidth) (fun png =>
    if no_data png && stores then TypeError
    else if stores && endless then Diverges
    else outcome (sync_write png)).

(** [createBuffer] for a merged size and scale that are arbitrary numbers,
    followed up to the statement that ends the call and the engine state it
    leaves. A size that is not an array length ends the call in
    [Array(height)]. [imageWidth | 0] is the ToInt32 of the integer part of
    the product. *)
Definition createBuffer_route (size scale : Q) (seed : JSString)
    (rs : RandSeed) : Result unit * RandSeed :=
  let rs := snd (createHSL (createRandSeed seed rs)) in
  if is_array_length size then
    let '(res, rs) := createImageData (Qfloor size) (Qfloor size) rs in
    (and_then res (fun imageData =>
       image_route (trunc (fmul size scale))
                   ((0 <? Z.of_nat (length imageData)) && ltb 0 scale)
                   (ltb (inject_Z max_count) scale)),
     rs)
  else (RangeError, rs).

(** The pixel at row [py] and column [px] of a sample buffer that is
    [width] pixels wide: four bytes at offset [4 * (py * width + px)]. *)
Definition pixel_at (data : list Z) (width py px : Z) : list (option Z) :=
  let o := Z.to_nat (4 * (py * width + px)) in
  [data !! o; data !! (o + 1)%nat; data !! (o + 2)%nat; data !! (o + 3)%nat].


(** A colour triple whose channels are bytes. *)
Definition is_rgb (c : RGB) : Prop :=
  let '(r, g, b) := c in 0 <= r <= 255 /\ 0 <= g <= 255 /\ 0 <= b <= 255.

(** ** Predicates used in the statements *)

(** A categorical cell value: background, foreground or spot. *)
Definition is_cell (c : Z) : Prop := c = 0 \/ c = 1 \/ c = 2.

(** What the callback of [flatMap] returns for a grid of width [n]:
    [dataWidth] drawn cells followed by the reversed first [mirrorWidth]
    of them; the row has [n] cells and is its own mirror image. *)
Definition mirrored_row (n : Z) (row : list Z) : Prop :=
  let dataWidth := ceil (inject_Z n / 2) in
  let mirrorWidth := n - dataWidth in
  length row = Z.to_nat n /\ reverse row = row /\
  exists d, length d = Z.to_nat dataWidth /\
            row = d ++ reverse (take (Z.to_nat mirrorWidth) d).


(** ** The compositor as a sequence of byte stores *)

(** Byte [j] of the pixel written for a colour: red, green, blue, then the
    constant 255. *)
Definition channel (c : RGB) (j : Z) : Z :=
  let '(r, g, b) := c in
  match j with
  | 0 => r
  | 1 => g
  | 2 => b
  | _ => 255
  end.

(** A sequence of stores [data[o] = v], performed in order. *)
Definition put_all (ws : list (Z * Z)) (data : list Z) : list Z :=
  foldl (fun d w => put d (fst w) (snd w)) data ws.

(** The four stores of the innermost loop body. *)
Definition pixel_writes (options : OptionsObject) (idx : Z) (color : RGB)
    (y x : Z) : list (Z * Z) :=
  let o := idx + (x + y * o_size options * o_scale options) * 4 in
  [(o, channel color 0); (o + 1, channel color 1);
   (o + 2, channel color 2); (o + 3, channel color 3)].

(** The stores of the two scaling loops. *)
Definition cell_writes (options : OptionsObject) (idx : Z) (color : RGB)
    : list (Z * Z) :=
  y ← range (o_scale options);
  x ← range (o_scale options);
  pixel_writes options idx color y x.

(** The offset and the colour that the loop over [imageData] computes for
    index [i]. *)
Definition cell_idx (options : OptionsObject) (imageData : list Z) (i : Z) : Z :=
  let width := Z.sqrt (Z.of_nat (length imageData)) in
  (i / width * o_size options * o_scale options + i mod width)
  * o_scale options * 4.

Definition cell_color (options : OptionsObject) (imageData : list Z) (i : Z) : RGB :=
  pick_color options (imageData !! Z.to_nat i).

(** All stores of [composite], in program order. *)
Definition all_writes (options : OptionsObject) (imageData : list Z)
    : list (Z * Z) :=
  i ← range (Z.of_nat (length imageData));
  cell_writes options (cell_idx options imageData i)
              (cell_color options imageData i).

(** ** The phases of [createBuffer] *)

(** The shared options object once all six assignments of [createBuffer]
    are done, and the engine state after [createHSL]. *)
Definition buffer_state (optsParam : Options) (entropy : JSString)
    (p : Process) : OptionsObject * RandSeed :=
  let o := defaultOptions p in
  let sd := nullish (seed optsParam) entropy in
  let '((h, s, l), rs) := createHSL (createRandSeed sd (randseed p)) in
  let rgb := hslToRgb h s l in
  (mkOptionsObject
     (nullish (scale optsParam) (o_scale o))
     (nullish (size optsParam) (o_size o))
     sd
     (nullish (fgColor optsParam) rgb)
     (nullish (bgColor optsParam) (o_bgColor o))
     (nullish (spotColor optsParam) rgb),
   rs).

(** A zero-filled buffer for an image [w] pixels wide and high; none when
    [w] is not positive. *)
Definition blank (w : Z) : list Z :=
  if 0 <? w then repeat 0 (Z.to_nat (4 * w * w)) else [].

(** The sample buffer for the options and a grid [imageData]: an image of
    width and height [size * scale] on which the loops of the compositor
    have run. It is what [createBuffer] hands to the encoder when pngjs
    keeps the dimension ([createBuffer_run]). *)
Definition sample_buffer (options : OptionsObject) (imageData : list Z) : PNG :=
  let imageWidth := o_size options * o_scale options in
  mkPNG imageWidth imageWidth (composite options imageData (blank imageWidth)).

(** The dimension [w] of an image that [new PNG] and the encoder accept:
    [| 0] keeps it and the buffers fit. *)
Definition fits (w : Z) : Prop := 0 < w /\ (4 * w + 1) * w <= kMaxLength.

(** The bound used for the error of one rounding of a number of at most
    256 in magnitude: 2^-44. *)
Definition eta : Q := 1 # 17592186044416.

(** ** Seeds and lanes in the exact range *)

(** A UTF-16 code unit. *)
Definition code_unit (c : Z) : Prop := 0 <= c <= 65535.

(** All four lanes are at most [M] in magnitude. *)
Definition lanes_within (M : Z) (rs : RandSeed) : Prop :=
  Z.abs (lane0 rs) <= M /\ Z.abs (lane1 rs) <= M /\
  Z.abs (lane2 rs) <= M /\ Z.abs (lane3 rs) <= M.

(** The largest change of the magnitude of a lane in one step of the seed
    loop: 2^31 for the shifted value plus a code unit. *)
Definition seed_growth : Z := 2147549183.

(** The largest number of steps that a text of [n] code units gives to
    one lane: every fourth step is on the same lane. *)
Definition rounds (n : nat) : Z := (Z.of_nat n + 3) / 4.

(** ** A seed that takes the lanes beyond 2^53 *)

(** A code unit four times, once for each lane. *)
Definition quad (c : Z) : JSString := [c; c; c; c].

(** [s] repeated [n] times. *)
Definition repeat_seed (n : N) (s : JSString) : JSString :=
  N.iter n (fun acc => s ++ acc) [].

(** The text ['3333DDDDMMMM5555HHHHFFFF1111'], which takes the 32-bit view of
    every lane of a fresh engine to 37591194, and the text
    ['%%%%FFFF####BBBB'], which takes that view back to itself and the
    stored number down by 2^32. *)
Definition long_prefix : JSString :=
  quad 51 ++ quad 68 ++ quad 77 ++ quad 53 ++ quad 72 ++ quad 70 ++ quad 49.

Definition long_period : JSString := quad 37 ++ quad 70 ++ quad 35 ++ quad 66.

(** The prefix, 2^21 periods and one more ['%']: 33554461 code units. *)
Definition long_seed : JSString :=
  long_prefix ++ repeat_seed 2097152 long_period ++ [37].

(** An engine whose four lanes hold the same number. *)
Definition same_lanes (v : Z) : RandSeed := mkRandSeed v v v v.

(** ** Concrete calls used as test inputs *)

Module Runs.

(** [createBuffer({ seed: 'a' })] *)
Definition opts_a : Options :=
  mkOptions None None (Some (str "a")) None None None.

(** The options object, the grid and the process state of the first call
    of [createBuffer({ seed: 'a' })] in a fresh process. *)
Definition options_a1 : OptionsObject :=
  mkOptionsObject 24 7 [97] (17, 7, 7) (255, 255, 255) (17, 7, 7).

Definition grid_a1 : list Z :=
  [0; 0; 0; 0; 0; 0; 0;
   0; 0; 0; 0; 0; 0; 0;
   0; 1; 0; 0; 0; 1; 0;
   0; 0; 1; 0; 1; 0; 0;
   1; 1; 1; 0; 1; 1; 1;
   0; 0; 1; 0; 1; 0; 0;
   0; 2; 2; 0; 2; 2; 0].

Definition process_a1 : Process :=
  mkProcess (mkRandSeed 598983715 1902856736 2060886082 249086962) options_a1.

(** The same for the second call with the same argument. *)
Definition options_a2 : OptionsObject :=
  mkOptionsObject 24 7 [97] (229, 41, 90) (255, 255, 255) (229, 41, 90).

Definition grid_a2 : list Z :=
  [1; 1; 1; 1; 1; 1; 1;
   1; 0; 1; 0; 1; 0; 1;
   1; 1; 0; 1; 0; 1; 1;
   1; 0; 1; 1; 1; 0; 1;
   1; 0; 0; 0; 0; 0; 1;
   0; 0; 0; 1; 0; 0; 0;
   0; 0; 0; 1; 0; 0; 0].

Definition process_a2 : Process :=
  mkProcess (mkRandSeed 566716091 586344127 244832715 1344677601) options_a2.

(** [createBuffer({ size: 1, scale: 1, seed: '', bgColor: [1, 2, 3] })]
    and the same call without [bgColor]. *)
Definition opts_bg : Options :=
  mkOptions (Some 1) (Some 1) (Some []) None (Some (1, 2, 3)) None.

Definition opts_no_bg : Options :=
  mkOptions (Some 1) (Some 1) (Some []) None None None.



End Runs.

(** ** Computations that see the lanes through their 32-bit view *)

(** An engine computation respects the 32-bit view when, from two states
    with the same view, it returns the same value and leaves states with
    the same view. *)
Definition respects32 {A} (m : Engine A) : Prop :=
  forall a b, lanes32 a = lanes32 b ->
    fst (m a) = fst (m b) /\ lanes32 (snd (m a)) = lanes32 (snd (m b)).

(** A lane that holds a non-negative 31-bit integer. *)
Definition lane31 (v : Z) : Prop := 0 <= v < 2147483648.

(** * Properties *)

(** ** 32-bit coercions *)

Section Coercions.

Lemma toInt32_range x : -2147483648 <= toInt32 x < 2147483648.
Proof. unfold toInt32. pose proof (Z.mod_pos_bound (x + 2147483648) 4294967296). lia. Qed.

Lemma toInt32_small x : -2147483648 <= x < 2147483648 -> toInt32 x = x.
Proof. intros H. unfold toInt32. rewrite Z.mod_small; lia. Qed.

Lemma toInt32_idem x : toInt32 (toInt32 x) = toInt32 x.
Proof. apply toInt32_small, toInt32_range. Qed.

(** Numbers that differ by a multiple of 2^32 have the same 32-bit view. *)
Lemma toInt32_congr a b k : a = b + k * 4294967296 -> toInt32 a = toInt32 b.
Proof.
  intros ->. unfold toInt32.
  replace (b + k * 4294967296 + 2147483648) with (b + 2147483648 + k * 4294967296) by lia.
  now rewrite Z.mod_add by lia.
Qed.

Lemma toInt32_decomp x : exists k, toInt32 x = x + k * 4294967296.
Proof.
  exists (- ((x + 2147483648) / 4294967296)). unfold toInt32.
  pose proof (Z.div_mod (x + 2147483648) 4294967296). lia.
Qed.

Lemma toUint32_range x : 0 <= toUint32 x < 4294967296.
Proof. unfold toUint32. apply Z.mod_pos_bound. lia. Qed.

Lemma toUint32_small x : 0 <= x < 4294967296 -> toUint32 x = x.
Proof. intros H. unfold toUint32. apply Z.mod_small; lia. Qed.

(** [(1 << 31) >>> 0] is 2^31. *)
Lemma divisor_value : toUint32 (shl 1 31) = 2147483648.
Proof. reflexivity. Qed.

End Coercions.

(** ** Rounding to a double *)

Section Rounding.

Local Open Scope Q_scope.

Lemma rne_err y : inject_Z (rne y) - (1 # 2) <= y /\ y <= inject_Z (rne y) + (1 # 2).
Proof.
  unfold rne. pose proof (Qfloor_le y) as Hl. pose proof (Qlt_floor y) as Hu.
  rewrite inject_Z_plus in Hu. change (inject_Z 1) with 1 in Hu.
  set (f := Qfloor y) in *.
  destruct (Qcompare_spec (y - inject_Z f) (1 # 2)) as [E|E|E].
  - destruct (Z.even f); [|rewrite inject_Z_plus; change (inject_Z 1) with 1];
      split; lra.
  - split; lra.
  - rewrite inject_Z_plus. change (inject_Z 1) with 1. split; lra.
Qed.

Lemma rne_int y n : y == inject_Z n -> rne y = n.
Proof.
  intros E. unfold rne. cbv zeta. rewrite (Qfloor_comp _ _ E), Qfloor_Z.
  destruct (Qcompare_spec (y - inject_Z n) (1 # 2)); [lra | reflexivity | lra].
Qed.

Lemma rne_nonneg y : 0 <= y -> (0 <= rne y)%Z.
Proof.
  intros H. unfold rne.
  assert (Hf : (0 <= Qfloor y)%Z).
  { change 0%Z with (Qfloor 0). now apply Qfloor_resp_le. }
  cbv zeta. destruct (_ ?= _)%Q; [destruct (Z.even _)| |]; lia.
Qed.

Lemma rne_nonpos y : y <= 0 -> (rne y <= 0)%Z.
Proof.
  intros H. destruct (rne_err y) as [H1 _].
  assert (Hlt : inject_Z (rne y) < inject_Z 1) by (change (inject_Z 1) with 1; lra).
  rewrite <- Zlt_Qlt in Hlt. lia.
Qed.

Lemma pow2_pos e : 0 < 2 ^ e.
Proof. apply Qpower_0_lt. reflexivity. Qed.

Lemma pow2_split a b : 2 ^ (a + b) == 2 ^ a * 2 ^ b.
Proof. apply Qpower_plus. discriminate. Qed.

Lemma pow2_Z n : (0 <= n)%Z -> 2 ^ n == inject_Z (2 ^ n).
Proof. intros H. change 2 with (inject_Z 2). symmetry. now apply Zpower_Qpower. Qed.

Lemma ilog2_spec a : 0 < a -> 2 ^ ilog2 a <= a /\ a < 2 ^ (ilog2 a + 1).
Proof.
  intros Ha. unfold ilog2.
  set (k := (Z.log2 (Qnum a) - Z.log2 (Z.pos (Qden a)))%Z).
  assert (Hup : a < 2 ^ (k + 1)).
  { destruct a as [n d]. cbn [Qnum Qden] in *.
    assert (Hn : (0 < n)%Z) by (unfold Qlt in Ha; cbn in Ha; lia).
    pose proof (Z.log2_spec n Hn) as [_ Hln].
    pose proof (Z.log2_spec (Z.pos d) ltac:(lia)) as [Hld _].
    pose proof (Z.log2_nonneg n) as Hn0.
    pose proof (Z.log2_nonneg (Z.pos d)) as Hd0.
    replace (k + 1)%Z with ((Z.log2 n + 1) + - Z.log2 (Z.pos d))%Z
      by (unfold k; lia).
    assert (Hp : 2 ^ (Z.log2 n + 1 + - Z.log2 (Z.pos d))
                 == 2 ^ (Z.log2 n + 1) * / 2 ^ Z.log2 (Z.pos d)).
    { rewrite <- Qpower_opp. apply pow2_split. }
    rewrite Hp. clear Hp. rewrite !pow2_Z by lia.
    rewrite <- Z.add_1_r in Hln.
    set (A := (2 ^ (Z.log2 n + 1))%Z) in *.
    set (B := (2 ^ Z.log2 (Z.pos d))%Z) in *.
    assert (HB : (0 < B)%Z) by (unfold B; apply Z.pow_pos_nonneg; lia).
    unfold Qlt, Qmult, Qinv, inject_Z. cbn [Qnum Qden].
    destruct B as [|b|b] eqn:EB; try lia. cbn [Qnum Qden].
    rewrite !Z.mul_1_r, !Pos.mul_1_l. nia. }
  destruct (Qle_bool (2 ^ k) a) eqn:E.
  - split; [now apply Qle_bool_iff | exact Hup].
  - split.
    + destruct a as [n d]. cbn [Qnum Qden] in *.
      assert (Hn : (0 < n)%Z) by (unfold Qlt in Ha; cbn in Ha; lia).
      pose proof (Z.log2_spec n Hn) as [Hln _].
      pose proof (Z.log2_spec (Z.pos d) ltac:(lia)) as [_ Hld].
      pose proof (Z.log2_nonneg n) as Hn0.
      pose proof (Z.log2_nonneg (Z.pos d)) as Hd0.
      replace (k - 1)%Z with (Z.log2 n + - (Z.log2 (Z.pos d) + 1))%Z
        by (unfold k; lia).
      assert (Hp : 2 ^ (Z.log2 n + - (Z.log2 (Z.pos d) + 1))
                   == 2 ^ Z.log2 n * / 2 ^ (Z.log2 (Z.pos d) + 1)).
      { rewrite <- Qpower_opp. apply pow2_split. }
      rewrite Hp. clear Hp. rewrite !pow2_Z by lia.
      rewrite <- Z.add_1_r in Hld.
      set (A := (2 ^ Z.log2 n)%Z) in *.
      set (B := (2 ^ (Z.log2 (Z.pos d) + 1))%Z) in *.
      assert (HA : (0 < A)%Z) by (unfold A; apply Z.pow_pos_nonneg; lia).
      unfold Qle, Qmult, Qinv, inject_Z. cbn [Qnum Qden].
      destruct B as [|b|b] eqn:EB; try lia. cbn [Qnum Qden].
      rewrite !Z.mul_1_r, !Pos.mul_1_l. nia.
    + replace (k - 1 + 1)%Z with k by lia.
      apply Qnot_le_lt. intros H. apply Qle_bool_iff in H. congruence.
Qed.

Lemma Qabs_pos_lt x : ~ x == 0 -> 0 < Qabs x.
Proof.
  intros Hx. pose proof (Qabs_nonneg x).
  destruct (Qlt_le_dec 0 (Qabs x)) as [?|Hle]; [assumption|].
  exfalso. apply Hx. apply Qabs_Qle_condition in Hle. lra.
Qed.

(** The rounding error: half a unit in the last place. *)
Lemma fl_err x :
  Qabs (fl x - x) <= Qabs x * (1 # 9007199254740992) + 2 ^ (-1075).
Proof.
  pose proof (pow2_pos (-1075)) as Ht.
  unfold fl. destruct (Qeq_bool x 0) eqn:E.
  - apply Qeq_bool_iff in E. apply Qabs_Qle_condition.
    pose proof (Qabs_nonneg x). split; lra.
  - assert (Hx : ~ x == 0) by (intros H; apply Qeq_bool_iff in H; congruence).
    pose proof (Qabs_pos_lt x Hx) as Ha.
    pose proof (ilog2_spec (Qabs x) Ha) as [HE _].
    set (E0 := ilog2 (Qabs x)) in *.
    set (e := Z.max (E0 - 52) (-1074)).
    pose proof (pow2_pos e) as HP.
    assert (HPE : 2 ^ e * (1 # 2)
                  <= Qabs x * (1 # 9007199254740992) + 2 ^ (-1075)).
    { destruct (Z.max_spec (E0 - 52) (-1074)) as [[_ Em]|[_ Em]];
        fold e in Em; rewrite Em.
      - assert (Hp : 2 ^ (-1074) * (1 # 2) == 2 ^ (-1075)).
        { change (1 # 2) with (2 ^ (-1)). rewrite <- pow2_split. reflexivity. }
        pose proof (Qabs_nonneg x). lra.
      - assert (Hp : 2 ^ E0 == 2 ^ (E0 - 52) * 4503599627370496).
        { change 4503599627370496 with (2 ^ 52). rewrite <- pow2_split.
          now replace (E0 - 52 + 52)%Z with E0 by lia. }
        pose proof (pow2_pos (E0 - 52)). lra. }
    destruct (rne_err (x / 2 ^ e)) as [R1 R2].
    set (m := inject_Z (rne (x / 2 ^ e))) in *.
    set (P := 2 ^ e) in *.
    assert (Hy : x / P * P == x) by (field; lra).
    apply Qabs_Qle_condition.
    assert (Hd : -(P * (1 # 2)) <= m * P - x <= P * (1 # 2)).
    { set (y := x / P) in *. split; nra. }
    split; lra.
Qed.

Lemma fl_zero x : x == 0 -> fl x = 0.
Proof. intros H. unfold fl. apply Qeq_bool_iff in H. now rewrite H. Qed.

Lemma fl_nonneg x : 0 <= x -> 0 <= fl x.
Proof.
  intros H. unfold fl. destruct (Qeq_bool x 0); [lra|].
  set (e := Z.max _ _). pose proof (pow2_pos e) as HP.
  assert (Hy : 0 <= x / 2 ^ e).
  { apply Qle_shift_div_l; lra. }
  apply rne_nonneg in Hy. rewrite Zle_Qle in Hy.
  change (inject_Z 0) with 0 in Hy. nra.
Qed.

Lemma fl_nonpos x : x <= 0 -> fl x <= 0.
Proof.
  intros H. unfold fl. destruct (Qeq_bool x 0); [lra|].
  set (e := Z.max _ _). pose proof (pow2_pos e) as HP.
  assert (Hy : x / 2 ^ e <= 0).
  { apply Qle_shift_div_r; lra. }
  apply rne_nonpos in Hy. rewrite Zle_Qle in Hy.
  change (inject_Z 0) with 0 in Hy. nra.
Qed.

(** Within [-256, 256] a rounding moves a value by at most 2^-44. *)
Lemma fl_close x :
  -256 <= x <= 256 ->
  x - (1 # 17592186044416) <= fl x <= x + (1 # 17592186044416).
Proof.
  intros H. pose proof (fl_err x) as He.
  assert (Ha : Qabs x <= 256) by (apply Qabs_Qle_condition; lra).
  assert (Ht : 2 ^ (-1075) <= 1 # 35184372088832).
  { change (1 # 35184372088832) with (2 ^ (-45)).
    apply Qpower_le_compat_l; [lia | discriminate]. }
  apply Qabs_Qle_condition in He. lra.
Qed.

(** Integers below 2^53 in magnitude are doubles. *)
Lemma fl_int z :
  (Z.abs z <= 9007199254740992)%Z -> fl (inject_Z z) == inject_Z z.
Proof.
  intros Hz.
  destruct (Z.eq_dec (Z.abs z) 9007199254740992%Z) as [Hmax|Hmax].
  { assert (Hc : z = 9007199254740992%Z \/ z = (-9007199254740992)%Z) by lia.
    destruct Hc as [-> | ->]; apply Qeq_bool_iff; vm_compute; reflexivity. }
  unfold fl. destruct (Qeq_bool (inject_Z z) 0) eqn:E.
  - apply Qeq_bool_iff in E. now rewrite E.
  - assert (Hx : ~ inject_Z z == 0)
      by (intros H; apply Qeq_bool_iff in H; congruence).
    pose proof (Qabs_pos_lt _ Hx) as Ha.
    pose proof (ilog2_spec _ Ha) as [HE1 HE2].
    set (E0 := ilog2 (Qabs (inject_Z z))) in *.
    assert (Habs : Qabs (inject_Z z) == inject_Z (Z.abs z)).
    { unfold Qabs, inject_Z. reflexivity. }
    rewrite Habs in HE1, HE2, Ha.
    assert (H1 : (1 <= Z.abs z)%Z).
    { change 0 with (inject_Z 0) in Ha. rewrite <- Zlt_Qlt in Ha. lia. }
    assert (Hlo : (0 <= E0)%Z).
    { destruct (Z.le_gt_cases 0 E0) as [?|Hneg]; [assumption|exfalso].
      assert (H : 2 ^ (E0 + 1) <= 2 ^ 0)
        by (apply Qpower_le_compat_l; [lia|discriminate]).
      change (2 ^ 0) with 1 in H.
      assert (H0 : inject_Z 1 <= inject_Z (Z.abs z)) by (now rewrite <- Zle_Qle).
      change (inject_Z 1) with 1 in H0. lra. }
    assert (Hhi : (E0 <= 52)%Z).
    { destruct (Z.le_gt_cases E0 52) as [?|Hbig]; [assumption|exfalso].
      assert (H : 2 ^ 53 <= 2 ^ E0)
        by (apply Qpower_le_compat_l; [lia|discriminate]).
      assert (H0 : inject_Z (Z.abs z) < inject_Z 9007199254740992)
        by (rewrite <- Zlt_Qlt; lia).
      change (2 ^ 53) with 9007199254740992 in H.
      change (inject_Z 9007199254740992) with 9007199254740992 in H0. lra. }
    replace (Z.max (E0 - 52) (-1074)) with (E0 - 52)%Z by lia.
    set (k := (52 - E0)%Z).
    assert (Hk : (0 <= k)%Z) by (unfold k; lia).
    assert (Hp : 2 ^ (E0 - 52) * inject_Z (2 ^ k) == 1).
    { rewrite <- pow2_Z by lia. rewrite <- pow2_split.
      now replace (E0 - 52 + k)%Z with 0%Z by (unfold k; lia). }
    pose proof (pow2_pos (E0 - 52)) as HP.
    assert (HK : inject_Z (2 ^ k) == / 2 ^ (E0 - 52)).
    { rewrite <- (Qmult_1_l (/ _)), <- Hp. field. lra. }
    assert (Hr : rne (inject_Z z / 2 ^ (E0 - 52)) = (z * 2 ^ k)%Z).
    { apply rne_int. rewrite inject_Z_mult. unfold Qdiv. now rewrite HK. }
    rewrite Hr, inject_Z_mult.
    rewrite <- Qmult_assoc, (Qmult_comm (inject_Z (2 ^ k))), Hp. ring.
Qed.

Lemma trunc_Z z : trunc (inject_Z z) = z.
Proof.
  unfold trunc. destruct (Qle_bool 0 (inject_Z z));
    [apply Qfloor_Z | apply Qceiling_Z].
Qed.

Lemma trunc_comp x y : x == y -> trunc x = trunc y.
Proof.
  intros E. unfold trunc.
  assert (Hb : Qle_bool 0 x = Qle_bool 0 y).
  { destruct (Qle_bool 0 x) eqn:Hx, (Qle_bool 0 y) eqn:Hy; try reflexivity.
    - apply Qle_bool_iff in Hx. rewrite E in Hx. apply Qle_bool_iff in Hx. congruence.
    - apply Qle_bool_iff in Hy. rewrite <- E in Hy. apply Qle_bool_iff in Hy. congruence. }
  rewrite Hb. destruct (Qle_bool 0 y);
    [now apply Qfloor_comp | now apply Qceiling_comp].
Qed.

Lemma num_small z : (Z.abs z <= 9007199254740992)%Z -> num z = z.
Proof.
  intros H. unfold num. rewrite (trunc_comp _ _ (fl_int z H)). apply trunc_Z.
Qed.

Lemma ilog2_unique a k : 2 ^ k <= a < 2 ^ (k + 1) -> ilog2 a = k.
Proof.
  intros [Hl Hu]. pose proof (pow2_pos k) as Hk.
  destruct (ilog2_spec a ltac:(lra)) as [Sl Su].
  assert (H1 : 2 ^ ilog2 a < 2 ^ (k + 1)) by lra.
  assert (H2 : 2 ^ k < 2 ^ (ilog2 a + 1)) by lra.
  apply Qpower_lt_compat_l_inv in H1; [|reflexivity].
  apply Qpower_lt_compat_l_inv in H2; [|reflexivity]. lia.
Qed.

Lemma rne_ge y n : inject_Z n <= y -> (n <= rne y)%Z.
Proof.
  intros H. assert (Hf : (n <= Qfloor y)%Z).
  { rewrite <- (Qfloor_Z n). now apply Qfloor_resp_le. }
  unfold rne. cbv zeta. destruct (_ ?= _); [destruct (Z.even _)| |]; lia.
Qed.

(** Rounding does not go below a double of the same binade. *)
Lemma fl_ge_grid y k n :
  2 ^ k <= y < 2 ^ (k + 1) -> (-1022 <= k)%Z ->
  inject_Z n * 2 ^ (k - 52) <= y -> inject_Z n * 2 ^ (k - 52) <= fl y.
Proof.
  intros Hy Hk Hn. pose proof (pow2_pos k) as Pk.
  pose proof (pow2_pos (k - 52)) as Pe.
  assert (Ha : Qabs y == y) by (apply Qabs_pos; lra).
  assert (Ek : ilog2 (Qabs y) = k) by (apply ilog2_unique; rewrite Ha; exact Hy).
  unfold fl. destruct (Qeq_bool y 0) eqn:E.
  - apply Qeq_bool_iff in E. lra.
  - rewrite Ek. replace (Z.max (k - 52) (-1074)) with (k - 52)%Z by lia.
    assert (Hr : (n <= rne (y / 2 ^ (k - 52)))%Z).
    { apply rne_ge. apply Qle_shift_div_l; [exact Pe | exact Hn]. }
    rewrite Zle_Qle in Hr. nra.
Qed.

End Rounding.

(** ** Bit-level bounds *)

Section Bits.

Lemma lxor_below a b n :
  0 < n -> 0 <= a < 2 ^ n -> 0 <= b < 2 ^ n -> 0 <= Z.lxor a b < 2 ^ n.
Proof.
  intros Hn Ha Hb.
  assert (Hnn : 0 <= Z.lxor a b) by (apply Z.lxor_nonneg; lia).
  split; [exact Hnn|].
  destruct (Z.eq_dec (Z.lxor a b) 0) as [->|Hne]; [apply Z.pow_pos_nonneg; lia|].
  apply Z.log2_lt_pow2; [lia|].
  pose proof (Z.log2_lxor a b ltac:(lia) ltac:(lia)) as Hl.
  assert (Z.log2 a < n).
  { destruct (Z.eq_dec a 0) as [->|]; [simpl; lia | apply Z.log2_lt_pow2; lia]. }
  assert (Z.log2 b < n).
  { destruct (Z.eq_dec b 0) as [->|]; [simpl; lia | apply Z.log2_lt_pow2; lia]. }
  lia.
Qed.

(** A 32-bit value xor-ed with a sign-propagating shift of itself has a
    clear sign bit: the two top bits are equal. *)
Lemma xor_sar_range a n :
  0 <= n -> 0 <= xor a (sar a n) < 2147483648.
Proof.
  intros Hn. unfold xor, sar.
  pose proof (toInt32_range a) as Ha. set (v := toInt32 a) in *.
  assert (Hs : -2147483648 <= Z.shiftr v n < 2147483648).
  { rewrite Z.shiftr_div_pow2 by lia.
    assert (0 < 2 ^ n) by (apply Z.pow_pos_nonneg; lia).
    split.
    - apply Z.div_le_lower_bound; nia.
    - apply Z.div_lt_upper_bound; nia. }
  rewrite (toInt32_small (Z.shiftr v n)) by exact Hs.
  destruct (Z_lt_le_dec v 0) as [Hneg|Hpos].
  - assert (Z.shiftr v n < 0) by (apply Z.shiftr_neg; lia).
    rewrite <- Z.lxor_lnot_lnot.
    change 2147483648 with (2 ^ 31).
    apply lxor_below; unfold Z.lnot; change (2 ^ 31) with 2147483648; lia.
  - assert (0 <= Z.shiftr v n) by (apply Z.shiftr_nonneg; lia).
    change 2147483648 with (2 ^ 31).
    apply lxor_below; change (2 ^ 31) with 2147483648; lia.
Qed.

(** The lane written by [rand] is a non-negative 31-bit value. *)
Lemma rand_word_range a t :
  0 <= xor (xor (xor a (sar a 19)) t) (sar t 8) < 2147483648.
Proof.
  pose proof (xor_sar_range a 19 ltac:(lia)) as HA.
  pose proof (xor_sar_range t 8 ltac:(lia)) as HT.
  unfold xor in *. unfold sar in *.
  set (A := Z.lxor (toInt32 a) (toInt32 (Z.shiftr (toInt32 a) 19))) in *.
  set (ts := toInt32 (Z.shiftr (toInt32 t) 8)) in *.
  set (T := Z.lxor (toInt32 t) ts) in *.
  rewrite (toInt32_small A) by lia.
  assert (HAT : Z.lxor (Z.lxor A (toInt32 t)) ts = Z.lxor A T).
  { unfold T. now rewrite Z.lxor_assoc. }
  assert (HR : 0 <= Z.lxor A T < 2147483648).
  { change 2147483648 with (2 ^ 31).
    apply lxor_below; change (2 ^ 31) with 2147483648; lia. }
  assert (Hmid : -2147483648 <= Z.lxor A (toInt32 t) < 2147483648).
  { assert (Z.lxor A (toInt32 t) = Z.lxor (Z.lxor A T) ts) as ->.
    { rewrite <- HAT. rewrite Z.lxor_assoc, Z.lxor_nilpotent, Z.lxor_0_r. reflexivity. }
    pose proof (toInt32_range (Z.shiftr (toInt32 t) 8)) as Hts. fold ts in Hts.
    destruct (Z_lt_le_dec ts 0) as [Hneg|Hpos].
    - assert (Hl : 0 <= Z.lxor (Z.lxor A T) (Z.lnot ts) < 2 ^ 31).
      { apply lxor_below; unfold Z.lnot; change (2 ^ 31) with 2147483648; lia. }
      rewrite Z.lxor_comm, <- Z.lnot_lxor_l, Z.lxor_comm in Hl.
      unfold Z.lnot in Hl. change (2 ^ 31) with 2147483648 in Hl. lia.
    - assert (0 <= Z.lxor (Z.lxor A T) ts < 2 ^ 31).
      { apply lxor_below; change (2 ^ 31) with 2147483648; lia. }
      change (2 ^ 31) with 2147483648 in *. lia. }
  rewrite (toInt32_small (Z.lxor A (toInt32 t))) by exact Hmid.
  rewrite HAT. exact HR.
Qed.

End Bits.

(** ** Pseudorandom engine *)

Section EngineFacts.

Lemma inject_Z_div_unit a b :
  0 <= a < b -> (0 <= inject_Z a / inject_Z b < 1)%Q.
Proof.
  intros [Ha Hab].
  assert (Hb : (inject_Z 0 < inject_Z b)%Q) by (rewrite <- Zlt_Qlt; lia).
  split.
  - apply Qle_shift_div_l; [exact Hb|].
    rewrite Qmult_0_l. change (inject_Z 0 <= inject_Z a)%Q.
    rewrite <- Zle_Qle. exact Ha.
  - apply Qlt_shift_div_r; [exact Hb|].
    rewrite Qmult_1_l. rewrite <- Zlt_Qlt. exact Hab.
Qed.

(** Every draw lies in the unit interval. *)
Lemma rand_range rs : (0 <= fst (rand rs) < 1)%Q.
Proof.
  unfold rand. cbn [fst]. rewrite divisor_value.
  apply inject_Z_div_unit.
  pose proof (rand_word_range (lane3 rs) (xor (lane0 rs) (shl (lane0 rs) 11))) as H.
  rewrite toUint32_small; lia.
Qed.

(** The largest value of a draw. *)
Lemma rand_below rs : (fst (rand rs) <= 1 - (1 # 2147483648))%Q.
Proof.
  unfold rand. cbn [fst]. rewrite divisor_value.
  pose proof (rand_word_range (lane3 rs) (xor (lane0 rs) (shl (lane0 rs) 11))) as H.
  rewrite toUint32_small by lia.
  set (w := xor _ _) in *.
  apply Qle_shift_div_r; [reflexivity|].
  assert (Hw : (inject_Z w <= inject_Z 2147483647)%Q) by (rewrite <- Zle_Qle; lia).
  change (inject_Z 2147483647) with 2147483647%Q in Hw.
  change (inject_Z 2147483648) with 2147483648%Q. lra.
Qed.

(** [(v << 5) - v + c] is [31 * v + c] modulo 2^32. *)
Lemma shift_fold v c : toInt32 (shl v 5 - v + c) = toInt32 (31 * toInt32 v + c).
Proof.
  unfold shl. rewrite Z.shiftl_mul_pow2 by lia.
  destruct (toInt32_decomp v) as [k Hk].
  destruct (toInt32_decomp (toInt32 v * 2 ^ 5)) as [j Hj].
  apply (toInt32_congr _ _ (j + k)). rewrite Hj.
  change (2 ^ 5) with 32. lia.
Qed.

(** The value stored by one step of the seed loop: exact as long as the
    lane stays within 2^53. *)
Lemma seed_value_exact v c M :
  Z.abs v <= M -> code_unit c -> M + seed_growth <= 9007199254740992 ->
  num (num (shl v 5 - v) + c) = shl v 5 - v + c /\
  Z.abs (shl v 5 - v + c) <= M + seed_growth.
Proof.
  unfold code_unit, seed_growth. intros Hv Hc HM.
  assert (Hs : -2147483648 <= shl v 5 < 2147483648) by apply toInt32_range.
  rewrite (num_small (shl v 5 - v)) by lia.
  rewrite num_small by lia. split; lia.
Qed.

(** The index of a code unit matters through its lane [i mod 4] only, and
    the loop over a concatenation continues on the second text. *)
Lemma seed_step_mod i j c rs :
  (i mod 4 = j mod 4)%nat -> seed_step i c rs = seed_step j c rs.
Proof. unfold seed_step. now intros ->. Qed.

Lemma succ_mod4 i j :
  (i mod 4 = j mod 4)%nat -> (Datatypes.S i mod 4 = Datatypes.S j mod 4)%nat.
Proof.
  intros H.
  rewrite <- (Nat.add_1_r i), <- (Nat.add_1_r j).
  rewrite (Nat.Div0.add_mod i 1 4), (Nat.Div0.add_mod j 1 4). now rewrite H.
Qed.

Lemma createRandSeed_from_mod seed : forall i j rs,
  (i mod 4 = j mod 4)%nat ->
  createRandSeed_from i seed rs = createRandSeed_from j seed rs.
Proof.
  induction seed as [|c rest IH]; intros i j rs Hij; [reflexivity|].
  cbn [createRandSeed_from]. rewrite (seed_step_mod i j c rs Hij).
  apply IH. now apply succ_mod4.
Qed.

Lemma createRandSeed_from_app s1 : forall s2 i rs,
  createRandSeed_from i (s1 ++ s2) rs
  = createRandSeed_from (i + length s1) s2 (createRandSeed_from i s1 rs).
Proof.
  induction s1 as [|c s1 IH]; intros s2 i rs.
  - cbn. now rewrite Nat.add_0_r.
  - cbn [app createRandSeed_from length]. rewrite IH. f_equal. lia.
Qed.

Lemma fold31_step_mod i j c rs :
  (i mod 4 = j mod 4)%nat -> fold31_step i c rs = fold31_step j c rs.
Proof. unfold fold31_step. now intros ->. Qed.

Lemma fold31_from_mod seed : forall i j rs,
  (i mod 4 = j mod 4)%nat -> fold31_from i seed rs = fold31_from j seed rs.
Proof.
  induction seed as [|c rest IH]; intros i j rs Hij; [reflexivity|].
  cbn [fold31_from]. rewrite (fold31_step_mod i j c rs Hij).
  apply IH. now apply succ_mod4.
Qed.

Lemma fold31_from_app s1 : forall s2 i rs,
  fold31_from i (s1 ++ s2) rs
  = fold31_from (i + length s1) s2 (fold31_from i s1 rs).
Proof.
  induction s1 as [|c s1 IH]; intros s2 i rs.
  - cbn. now rewrite Nat.add_0_r.
  - cbn [app fold31_from length]. rewrite IH. f_equal. lia.
Qed.

(** One lane step seen through the 32-bit view, with the growth of the
    stored number. *)
Lemma lane_step_view v c M :
  Z.abs v <= M -> code_unit c -> M + seed_growth <= 9007199254740992 ->
  toInt32 (lane_step c v) = toInt32 (31 * toInt32 v + c) /\
  Z.abs (lane_step c v) <= M + seed_growth.
Proof.
  intros Hv Hc HM. unfold lane_step.
  destruct (seed_value_exact v c M Hv Hc HM) as [-> Hb].
  split; [apply shift_fold | exact Hb].
Qed.

Lemma createRandSeed_from_lane seed i rs :
  createRandSeed_from i seed rs = createRandSeed_from (i mod 4) seed rs.
Proof. apply createRandSeed_from_mod. now rewrite Nat.Div0.mod_mod. Qed.

Lemma fold31_from_lane seed i rs :
  fold31_from i seed rs = fold31_from (i mod 4) seed rs.
Proof. apply fold31_from_mod. now rewrite Nat.Div0.mod_mod. Qed.

(** Up to four consecutive steps are on different lanes, so together they
    raise the magnitude of the lanes by one [seed_growth] only. *)
Lemma seed_round_exact seed i rs M :
  (length seed <= 4)%nat -> lanes_within M rs -> Forall code_unit seed ->
  M + seed_growth <= 9007199254740992 ->
  lanes32 (createRandSeed_from i seed rs) = fold31_from i seed (lanes32 rs) /\
  lanes_within (M + seed_growth) (createRandSeed_from i seed rs).
Proof.
  intros Hlen Hrs Hcs HM.
  assert (HG : 0 <= seed_growth) by (unfold seed_growth; lia).
  rewrite createRandSeed_from_lane, fold31_from_lane.
  pose proof (Nat.mod_upper_bound i 4 ltac:(lia)) as Hi.
  destruct rs as [a b c d]. destruct Hrs as (Ha & Hb & Hc & Hd).
  cbn [lane0 lane1 lane2 lane3] in Ha, Hb, Hc, Hd.
  destruct (i mod 4)%nat as [|[|[|[|k]]]]; [| | | |lia];
    (destruct seed as [|c0 [|c1 [|c2 [|c3 [|c4 rest]]]]];
       [| | | | |cbn [length] in Hlen; lia]);
    repeat match goal with
           | H : Forall _ (_ :: _) |- _ => apply Forall_cons in H as [? H]
           end;
    cbn [createRandSeed_from fold31_from];
    unfold seed_step, fold31_step, lanes32;
    change (0 mod 4)%nat with 0%nat; change (1 mod 4)%nat with 1%nat;
    change (2 mod 4)%nat with 2%nat; change (3 mod 4)%nat with 3%nat;
    change (4 mod 4)%nat with 0%nat; change (5 mod 4)%nat with 1%nat;
    change (6 mod 4)%nat with 2%nat;
    cbn [get_lane set_lane lane0 lane1 lane2 lane3];
    repeat match goal with
           | |- context [lane_step ?c ?v] =>
               let x := fresh "x" in
               destruct (lane_step_view v c M ltac:(assumption)
                           ltac:(assumption) HM) as [? ?];
               set (x := lane_step c v) in *; clearbody x
           end;
    (split; [congruence|]); unfold lanes_within;
    cbn [lane0 lane1 lane2 lane3]; lia.
Qed.

(** A text of [n] code units raises the magnitude of the lanes by
    [rounds n] times [seed_growth] at most; as long as that stays within
    2^53, every step is exact and the 32-bit view follows the fold. *)
Lemma createRandSeed_from_rounds n : forall seed i rs M,
  length seed = n ->
  lanes_within M rs -> Forall code_unit seed ->
  M + rounds (length seed) * seed_growth <= 9007199254740992 ->
  lanes32 (createRandSeed_from i seed rs) = fold31_from i seed (lanes32 rs) /\
  lanes_within (M + rounds (length seed) * seed_growth)
               (createRandSeed_from i seed rs).
Proof.
  assert (HG : 0 <= seed_growth) by (unfold seed_growth; lia).
  induction n as [n IH] using lt_wf_ind. intros seed i rs M Hn Hrs Hcs HM.
  destruct seed as [|c0 [|c1 [|c2 [|c3 rest]]]].
  1: { cbn [createRandSeed_from fold31_from length]. split; [reflexivity|].
       change (rounds 0) with 0. now rewrite Z.mul_0_l, Z.add_0_r. }
  1-3: change (rounds _) with 1 in HM |- *; rewrite Z.mul_1_l in HM |- *;
       apply seed_round_exact; [cbn [length]; lia | assumption..].
  assert (Er : rounds (length (c0 :: c1 :: c2 :: c3 :: rest))
               = 1 + rounds (length rest)).
  { unfold rounds. cbn [length]. rewrite !Nat2Z.inj_succ.
    replace (Z.succ (Z.succ (Z.succ (Z.succ (Z.of_nat (length rest))))) + 3)
      with (Z.of_nat (length rest) + 3 + 1 * 4) by lia.
    rewrite Z.div_add by lia. lia. }
  rewrite Er in HM |- *.
  assert (H0 : 0 <= rounds (length rest))
    by (unfold rounds; apply Z.div_pos; lia).
  change (c0 :: c1 :: c2 :: c3 :: rest) with ([c0; c1; c2; c3] ++ rest) in Hcs |- *.
  apply Forall_app in Hcs as [Hc4 Hcr].
  rewrite createRandSeed_from_app, fold31_from_app.
  destruct (seed_round_exact [c0; c1; c2; c3] i rs M
              ltac:(cbn [length]; lia) Hrs Hc4 ltac:(nia)) as [E1 B1].
  destruct (IH (length rest) ltac:(cbn [length] in Hn; lia) rest
              (i + length [c0; c1; c2; c3])%nat _ _ eq_refl B1 Hcr ltac:(nia))
    as [E2 B2].
  rewrite E2, E1. split; [reflexivity|].
  replace (M + (1 + rounds (length rest)) * seed_growth)
    with (M + seed_growth + rounds (length rest) * seed_growth) by lia.
  exact B2.
Qed.

(** *** A seed that takes a lane beyond 2^53 *)

Lemma repeat_seed_succ n s : repeat_seed (N.succ n) s = s ++ repeat_seed n s.
Proof. unfold repeat_seed. now rewrite N.iter_succ. Qed.

Lemma repeat_seed_length4 n s :
  (length s mod 4 = 0)%nat -> (length (repeat_seed n s) mod 4 = 0)%nat.
Proof.
  intros Hs. induction n as [|n IH] using N.peano_ind; [reflexivity|].
  rewrite repeat_seed_succ, length_app, Nat.Div0.add_mod, Hs, IH. reflexivity.
Qed.

Lemma repeat_seed_length n s :
  Z.of_nat (length (repeat_seed n s)) = Z.of_N n * Z.of_nat (length s).
Proof.
  induction n as [|n IH] using N.peano_ind; [reflexivity|].
  rewrite repeat_seed_succ, length_app, Nat2Z.inj_add, IH. lia.
Qed.

Lemma repeat_seed_code_units n s :
  Forall code_unit s -> Forall code_unit (repeat_seed n s).
Proof.
  intros Hs. induction n as [|n IH] using N.peano_ind; [constructor|].
  rewrite repeat_seed_succ. apply Forall_app. now split.
Qed.

(** Seeding with a text whose length is a multiple of 4 and then with a
    second text is seeding with their concatenation. *)
Lemma createRandSeed_app4 s1 s2 rs :
  (length s1 mod 4 = 0)%nat ->
  createRandSeed (s1 ++ s2) rs = createRandSeed s2 (createRandSeed s1 rs).
Proof.
  intros H. unfold createRandSeed. rewrite createRandSeed_from_app.
  apply createRandSeed_from_mod. now rewrite Nat.add_0_l, H.
Qed.

Lemma fold31_app4 s1 s2 rs :
  (length s1 mod 4 = 0)%nat ->
  fold31 (s1 ++ s2) rs = fold31 s2 (fold31 s1 rs).
Proof.
  intros H. unfold fold31. rewrite fold31_from_app.
  apply fold31_from_mod. now rewrite Nat.add_0_l, H.
Qed.

(** Four equal code units fold the same code into each lane. *)
Lemma createRandSeed_quad c rs :
  createRandSeed (quad c) rs
  = mkRandSeed (lane_step c (lane0 rs)) (lane_step c (lane1 rs))
               (lane_step c (lane2 rs)) (lane_step c (lane3 rs)).
Proof. reflexivity. Qed.

(** One exact step on a lane with 32-bit view [u]. *)
Lemma lane_step_exact c v u :
  toInt32 v = u ->
  Z.abs (toInt32 (32 * u) - v) <= 9007199254740992 ->
  Z.abs (toInt32 (32 * u) - v + c) <= 9007199254740992 ->
  lane_step c v = toInt32 (32 * u) + c - v /\
  toInt32 (lane_step c v) = toInt32 (31 * u + c).
Proof.
  intros Hu H1 H2. unfold lane_step.
  assert (Es : shl v 5 = toInt32 (32 * u)).
  { unfold shl. rewrite Z.shiftl_mul_pow2 by lia. rewrite Hu.
    change (2 ^ 5) with 32. f_equal. lia. }
  pose proof (shift_fold v c) as Ef. rewrite Hu in Ef.
  rewrite Es in Ef |- *.
  rewrite (num_small (toInt32 (32 * u) - v)) by exact H1.
  rewrite num_small by exact H2.
  split; [lia | exact Ef].
Qed.

(** One period on a lane whose view is at the start of the cycle: the
    stored number goes down by 2^32 and the view comes back. *)
Lemma period_lane v :
  toInt32 v = 37591194 -> -9007194922182502 <= v <= 37591194 ->
  lane_step 66 (lane_step 35 (lane_step 70 (lane_step 37 v)))
  = v - 4294967296.
Proof.
  intros Hu Hv.
  pose proof (lane_step_exact 37 v 37591194 Hu) as S1.
  change (toInt32 (32 * 37591194)) with 1202918208 in S1.
  change (toInt32 (31 * 37591194 + 37)) with 1165327051 in S1.
  destruct (S1 ltac:(lia) ltac:(lia)) as [E1 U1]. clear S1.
  set (v1 := lane_step 37 v) in *.
  pose proof (lane_step_exact 70 v1 1165327051 U1) as S2.
  change (toInt32 (32 * 1165327051)) with (-1364240032) in S2.
  change (toInt32 (31 * 1165327051 + 70)) with 1765400283 in S2.
  destruct (S2 ltac:(lia) ltac:(lia)) as [E2 U2]. clear S2.
  set (v2 := lane_step 70 v1) in *.
  pose proof (lane_step_exact 35 v2 1765400283 U2) as S3.
  change (toInt32 (32 * 1765400283)) with 658234208 in S3.
  change (toInt32 (31 * 1765400283 + 35)) with (-1107166040) in S3.
  destruct (S3 ltac:(lia) ltac:(lia)) as [E3 U3]. clear S3.
  set (v3 := lane_step 35 v2) in *.
  pose proof (lane_step_exact 66 v3 (-1107166040) U3) as S4.
  change (toInt32 (32 * -1107166040)) with (-1069574912) in S4.
  destruct (S4 ltac:(lia) ltac:(lia)) as [E4 _]. clear S4.
  lia.
Qed.

Lemma period_state v :
  toInt32 v = 37591194 -> -9007194922182502 <= v <= 37591194 ->
  createRandSeed long_period (same_lanes v) = same_lanes (v - 4294967296).
Proof.
  intros Hu Hv. unfold long_period.
  rewrite !createRandSeed_app4 by reflexivity.
  rewrite !createRandSeed_quad. unfold same_lanes.
  cbn [lane0 lane1 lane2 lane3].
  now rewrite (period_lane v Hu Hv).
Qed.

Lemma toInt32_sub_period v : toInt32 (v - 4294967296) = toInt32 v.
Proof. apply (toInt32_congr _ _ (-1)). lia. Qed.

Lemma periods_state n : forall v,
  toInt32 v = 37591194 ->
  -9007194922182502 + (Z.of_N n - 1) * 4294967296 <= v <= 37591194 ->
  createRandSeed (repeat_seed n long_period) (same_lanes v)
  = same_lanes (v - Z.of_N n * 4294967296).
Proof.
  induction n as [|n IH] using N.peano_ind; intros v Hu Hv.
  - cbn. now rewrite Z.sub_0_r.
  - rewrite repeat_seed_succ, createRandSeed_app4 by reflexivity.
    rewrite N2Z.inj_succ in Hv |- *.
    rewrite period_state by (assumption || lia).
    rewrite IH by (rewrite ?toInt32_sub_period; assumption || lia).
    f_equal. lia.
Qed.

Lemma periods_view n : forall u,
  fold31 long_period (same_lanes u) = same_lanes u ->
  fold31 (repeat_seed n long_period) (same_lanes u) = same_lanes u.
Proof.
  intros u Hp. induction n as [|n IH] using N.peano_ind; [reflexivity|].
  rewrite repeat_seed_succ, fold31_app4 by reflexivity. now rewrite Hp.
Qed.

(** [rand] reads its lanes through the 32-bit view only. *)
Lemma rand_lanes32 rs :
  fst (rand (lanes32 rs)) = fst (rand rs) /\
  lanes32 (snd (rand (lanes32 rs))) = lanes32 (snd (rand rs)).
Proof.
  unfold rand, lanes32, xor, sar, shl. cbn. now rewrite !toInt32_idem.
Qed.

End EngineFacts.

(** C2: for every engine state, [rand()] returns a value [r] with
    [0 <= r < 1]; the value is [unsigned(lane3) / 2^31], where [lane3] is
    the lane written by the xorshift step [t = lane0 ^ (lane0 << 11)],
    lanes shifted down by one, [lane3 ^ (lane3 >> 19) ^ t ^ (t >> 8)]. *)
Theorem rand_in_unit_interval (rs : RandSeed) :
  let r := fst (rand rs) in
  let rs' := snd (rand rs) in
  let t := xor (lane0 rs) (shl (lane0 rs) 11) in
  (0 <= r < 1)%Q /\
  r = (inject_Z (toUint32 (lane3 rs')) / inject_Z (2 ^ 31))%Q /\
  lane0 rs' = lane1 rs /\ lane1 rs' = lane2 rs /\ lane2 rs' = lane3 rs /\
  lane3 rs' = xor (xor (xor (lane3 rs) (sar (lane3 rs) 19)) t) (sar t 8).
Proof.
  cbv zeta. split; [apply rand_range|].
  unfold rand; cbn [fst snd lane0 lane1 lane2 lane3].
  rewrite divisor_value. repeat split; reflexivity.
Qed.

(** Beyond 2^53 the subtraction and the addition of the seed loop are no
    longer exact: on a lane that holds [-2^53] the code unit 97 gives
    [2^53 + 97], which is stored as [2^53 + 96]; the 32-bit view of the
    lane is 96, where the wrap-around fold gives 97. *)
Example lane_beyond_2_53_is_rounded :
  let rs := mkRandSeed (-9007199254740992) 0 0 0 in
  createRandSeed [97] rs = mkRandSeed 9007199254741088 0 0 0 /\
  lanes32 (createRandSeed [97] rs) = mkRandSeed 96 0 0 0 /\
  fold31 [97] (lanes32 rs) = mkRandSeed 97 0 0 0.
Proof. vm_compute. repeat split. Qed.

(** C9 fails for a long input string on a fresh engine: after the prefix
    and 2^21 periods of [long_seed] every lane holds [37591194 - 2^53];
    the last code unit 37 gives [2^53 + 1165327051], which is stored as
    [2^53 + 1165327052]. The 32-bit view of lane 0 is 1165327052, where the
    fold [lane := 31 * lane + code] with 32-bit wrap-around gives
    1165327051. *)
Lemma long_seed_breaks_the_fold :
  Forall code_unit long_seed /\
  Z.of_nat (length long_seed) = 33554461 /\
  lane0 (createRandSeed long_seed randseed0) = 9007200420068044 /\
  toInt32 (lane0 (createRandSeed long_seed randseed0)) = 1165327052 /\
  lane0 (fold31 long_seed (lanes32 randseed0)) = 1165327051.
Proof.
  assert (Hpre : createRandSeed long_prefix randseed0 = same_lanes 37591194)
    by (vm_compute; reflexivity).
  assert (Hpre' : fold31 long_prefix (lanes32 randseed0) = same_lanes 37591194)
    by (vm_compute; reflexivity).
  assert (Hl4 : (length (repeat_seed 2097152 long_period) mod 4 = 0)%nat)
    by (apply repeat_seed_length4; reflexivity).
  assert (Hrun : createRandSeed long_seed randseed0
                 = createRandSeed [37] (same_lanes (37591194 - 9007199254740992))).
  { unfold long_seed.
    rewrite createRandSeed_app4, Hpre by reflexivity.
    rewrite createRandSeed_app4 by exact Hl4.
    rewrite periods_state; [reflexivity | reflexivity | lia]. }
  assert (Hview : fold31 long_seed (lanes32 randseed0)
                  = fold31 [37] (same_lanes 37591194)).
  { unfold long_seed.
    rewrite fold31_app4, Hpre' by reflexivity.
    rewrite fold31_app4 by exact Hl4.
    rewrite periods_view; [reflexivity | vm_compute; reflexivity]. }
  split; [|split; [|split; [|split]]].
  - unfold long_seed. apply Forall_app. split.
    + repeat (apply Forall_cons_2; [unfold code_unit; lia|]). apply Forall_nil_2.
    + apply Forall_app. split.
      * apply repeat_seed_code_units.
        repeat (apply Forall_cons_2; [unfold code_unit; lia|]). apply Forall_nil_2.
      * repeat (apply Forall_cons_2; [unfold code_unit; lia|]). apply Forall_nil_2.
  - unfold long_seed. rewrite !length_app, !Nat2Z.inj_add, repeat_seed_length.
    reflexivity.
  - rewrite Hrun. vm_compute. reflexivity.
  - rewrite Hrun. vm_compute. reflexivity.
  - rewrite Hview. vm_compute. reflexivity.
Qed.

(** C9, amended: as long as the lanes stay within 2^53 in magnitude,
    [createRandSeed] folds the code units in input order, code [i] into lane
    [i mod 4], by [lane := 31 * lane + code] modulo 2^32 (the signed 32-bit
    view of each lane follows the wrap-around recurrence); the lanes are
    not reset: the fold starts from the prior state, an empty seed leaves
    the state as it is, and a second call continues from the state the
    first one left. A step changes the magnitude of its lane by at most
    [seed_growth = 2^31 + 65535] and every fourth step is on the same lane,
    so lanes that start within [M] stay within 2^53 while
    [M + rounds n * seed_growth <= 2^53] for the [n] code units folded; on
    a fresh engine that is every seed of up to 16776704 code units. *)
Theorem createRandSeed_folds_mod_2_32 (seed seed2 : JSString) (rs : RandSeed)
    (M : Z) :
  lanes_within M rs -> Forall code_unit seed -> Forall code_unit seed2 ->
  M + (rounds (length seed) + rounds (length seed2)) * seed_growth
  <= 9007199254740992 ->
  lanes32 (createRandSeed seed rs) = fold31 seed (lanes32 rs) /\
  createRandSeed [] rs = rs /\
  lanes32 (createRandSeed seed2 (createRandSeed seed rs))
    = fold31 seed2 (fold31 seed (lanes32 rs)).
Proof.
  intros Hrs Hc1 Hc2 HM.
  assert (HG : 0 <= seed_growth) by (unfold seed_growth; lia).
  assert (H1 : 0 <= rounds (length seed))
    by (unfold rounds; apply Z.div_pos; lia).
  assert (H2 : 0 <= rounds (length seed2))
    by (unfold rounds; apply Z.div_pos; lia).
  unfold createRandSeed, fold31.
  destruct (createRandSeed_from_rounds _ seed 0 rs M eq_refl Hrs Hc1
              ltac:(nia)) as [E1 B1].
  destruct (createRandSeed_from_rounds _ seed2 0 _ _ eq_refl B1 Hc2
              ltac:(nia)) as [E2 _].
  repeat split.
  - exact E1.
  - now rewrite E2, E1.
Qed.

Lemma createRandSeed_folds_mod_2_32_witness :
  lanes32 (createRandSeed (str "ab") randseed0)
  = fold31 (str "ab") (lanes32 randseed0) /\
  lanes32 (createRandSeed (str "c") (createRandSeed (str "ab") randseed0))
  = fold31 (str "c") (fold31 (str "ab") (lanes32 randseed0)).
Proof.
  destruct (createRandSeed_folds_mod_2_32 (str "ab") (str "c") randseed0 0)
    as (H1 & _ & H2).
  - unfold lanes_within. cbn. lia.
  - change (str "ab") with [97; 98].
    repeat (apply Forall_cons_2; [unfold code_unit; lia|]). apply Forall_nil_2.
  - change (str "c") with [99].
    repeat (apply Forall_cons_2; [unfold code_unit; lia|]). apply Forall_nil_2.
  - vm_compute. discriminate.
  - split; [exact H1 | exact H2].
Defined.

(** ** Grid synthesizer *)

Section GridFacts.

(** [Math.ceil(width / 2)] on an integer width. *)
Lemma ceil_half w : ceil (inject_Z w / 2) = (w + 1) / 2.
Proof.
  unfold ceil, Qceiling, Qfloor, Qdiv, Qmult, Qinv, Qopp, inject_Z. cbn.
  rewrite Z.mul_1_r. Z.div_mod_to_equations. lia.
Qed.

Lemma floor_bounds x a b :
  (inject_Z a <= x)%Q -> (x < inject_Z (b + 1))%Q -> a <= Qfloor x <= b.
Proof.
  intros Ha Hb. split.
  - rewrite <- (Qfloor_Z a). now apply Qfloor_resp_le.
  - assert (H : (inject_Z (Qfloor x) < inject_Z (b + 1))%Q)
      by (eapply Qle_lt_trans; [apply Qfloor_le | exact Hb]).
    rewrite <- Zlt_Qlt in H. lia.
Qed.

(** A draw in the unit interval gives a cell in {0, 1, 2}. *)
Lemma cell_of_range r : (0 <= r < 1)%Q -> 0 <= cell_of r <= 2.
Proof.
  intros [H0 H1]. unfold cell_of, floor.
  apply floor_bounds;
    [change (inject_Z 0) with 0%Q | change (inject_Z (2 + 1)) with 3%Q]; lra.
Qed.

(** The product [r * 2.3] of a draw [r = k / 2^31] is at least
    [1 / (10 * 2^31)] away from the integers 1 and 2, because 23 does not
    divide [10 * 2^31]; the double 2.3 and the rounding of the product
    move it by 2^-43 at most. So the floor of the rounded product, which
    is what [Math.floor(rand() * 2.3)] computes, is [cell_of r]. *)
Lemma cell_of_rounded rs :
  floor (fmul (fst (rand rs)) (fl 2.3)) = cell_of (fst (rand rs)).
Proof.
  pose proof (rand_range rs) as Hr.
  pose proof (cell_of_range _ Hr) as Hn.
  assert (Hk : exists k, 0 <= k < 2147483648 /\
                 (fst (rand rs) == inject_Z k * (1 # 2147483648))%Q).
  { unfold rand. cbn [fst]. rewrite divisor_value.
    pose proof (rand_word_range (lane3 rs)
                  (xor (lane0 rs) (shl (lane0 rs) 11))) as H.
    eexists. split; [|reflexivity]. rewrite toUint32_small; lia. }
  destruct Hk as (k & Hk & Er).
  set (r := fst (rand rs)) in *.
  unfold cell_of, floor in *. set (n := Qfloor (r * 2.3)) in *.
  pose proof (Qfloor_le (r * 2.3)) as Fl. pose proof (Qlt_floor (r * 2.3)) as Fu.
  fold n in Fl, Fu. rewrite inject_Z_plus in Fu.
  change (inject_Z 1) with 1%Q in Fu.
  assert (Zl : n * 21474836480 <= 23 * k).
  { rewrite Zle_Qle, !inject_Z_mult.
    change (inject_Z 21474836480) with 21474836480%Q.
    change (inject_Z 23) with 23%Q. lra. }
  assert (Zu : 23 * k < (n + 1) * 21474836480).
  { rewrite Zlt_Qlt, !inject_Z_mult, inject_Z_plus.
    change (inject_Z 21474836480) with 21474836480%Q.
    change (inject_Z 23) with 23%Q. change (inject_Z 1) with 1%Q. lra. }
  assert (Zl' : n = 0 \/ n * 21474836480 + 1 <= 23 * k) by lia.
  assert (Zu' : 23 * k + 1 <= (n + 1) * 21474836480) by lia.
  assert (Ql : n = 0 \/ (inject_Z n + (1 # 21474836480) <= r * 2.3)%Q).
  { destruct Zl' as [E|Zl']; [left; exact E | right].
    rewrite Zle_Qle, inject_Z_plus, !inject_Z_mult in Zl'.
    change (inject_Z 21474836480) with 21474836480%Q in Zl'.
    change (inject_Z 23) with 23%Q in Zl'. change (inject_Z 1) with 1%Q in Zl'.
    lra. }
  assert (Qu : (r * 2.3 <= inject_Z n + 1 - (1 # 21474836480))%Q).
  { rewrite Zle_Qle, inject_Z_plus, !inject_Z_mult, inject_Z_plus in Zu'.
    change (inject_Z 21474836480) with 21474836480%Q in Zu'.
    change (inject_Z 23) with 23%Q in Zu'. change (inject_Z 1) with 1%Q in Zu'.
    lra. }
  pose proof (fl_close 2.3 ltac:(lra)) as C. set (c := fl 2.3) in *.
  assert (Hp : (r * 2.3 - (1 # 17592186044416) <= r * c
                <= r * 2.3 + (1 # 17592186044416))%Q).
  { clear - Hr C. split; nra. }
  assert (Hn' : (0 <= inject_Z n <= 2)%Q).
  { change 0%Q with (inject_Z 0). change 2%Q with (inject_Z 2).
    rewrite <- !Zle_Qle. exact Hn. }
  pose proof (fl_close (r * c) ltac:(lra)) as Y.
  pose proof (fl_nonneg (r * c) ltac:(clear - Hr C; nra)) as Y0.
  unfold fmul.
  assert (B : n <= Qfloor (fl (r * c)) <= n).
  { apply floor_bounds.
    - destruct Ql as [E|Ql]; [rewrite E; exact Y0 | lra].
    - rewrite inject_Z_plus. change (inject_Z 1) with 1%Q. lra. }
  lia.
Qed.

Lemma draw_row_S n rs :
  draw_row (S n) rs =
    (let (r, rs1) := rand rs in
     let (row, rs2) := draw_row n rs1 in (cell_of r :: row, rs2)).
Proof. reflexivity. Qed.

Lemma draw_row_cells n : forall rs, Forall is_cell (fst (draw_row n rs)).
Proof.
  induction n as [|n IH]; intros rs; [constructor|].
  rewrite draw_row_S. pose proof (rand_range rs) as Hr.
  destruct (rand rs) as [r rs1].
  specialize (IH rs1). destruct (draw_row n rs1) as [row rs2].
  cbn [fst] in *. constructor; [|exact IH].
  pose proof (cell_of_range r Hr). unfold is_cell. lia.
Qed.

Lemma draw_row_length n : forall rs, length (fst (draw_row n rs)) = n.
Proof.
  induction n as [|n IH]; intros rs; [reflexivity|].
  rewrite draw_row_S. destruct (rand rs) as [r rs1].
  specialize (IH rs1). destruct (draw_row n rs1) as [row rs2]. cbn [fst snd] in *.
  cbn. now rewrite IH.
Qed.


Lemma make_row_eq dw mw rs :
  make_row dw mw rs =
    (let (row, rs1) := draw_row (Z.to_nat dw) rs in
     (row ++ reverse (slice0 row mw), rs1)).
Proof. reflexivity. Qed.

Lemma make_row_cells dw mw rs : Forall is_cell (fst (make_row dw mw rs)).
Proof.
  rewrite make_row_eq.
  pose proof (draw_row_cells (Z.to_nat dw) rs) as H.
  destruct (draw_row (Z.to_nat dw) rs) as [row rs1]. cbn [fst snd] in *.
  apply Forall_app. split; [exact H|].
  apply Forall_reverse. unfold slice0. now apply Forall_take.
Qed.

(** A row of width [n >= 0] has [n] cells and reads the same backwards. *)
Lemma make_row_mirror n rs :
  0 <= n ->
  let row := fst (make_row ((n + 1) / 2) (n - (n + 1) / 2) rs) in
  length row = Z.to_nat n /\ reverse row = row.
Proof.
  intros Hn. cbv zeta. rewrite make_row_eq.
  pose proof (draw_row_length (Z.to_nat ((n + 1) / 2)) rs) as Hlen.
  destruct (draw_row (Z.to_nat ((n + 1) / 2)) rs) as [d rs1]. cbn [fst snd] in *.
  set (dw := (n + 1) / 2) in *. set (mw := n - dw).
  assert (Hdw : 0 <= mw <= dw /\ dw <= mw + 1).
  { unfold mw, dw. Z.div_mod_to_equations. lia. }
  unfold slice0. destruct (Z.ltb_spec mw 0) as [?|_]; [lia|].
  set (m := Z.to_nat mw).
  assert (Hm : (m <= length d <= m + 1)%nat) by (unfold m; lia).
  split.
  - rewrite length_app, length_reverse, length_take_le by lia. unfold m, mw. lia.
  - rewrite reverse_app, reverse_involutive.
    assert (Hmid : reverse (drop m d) = drop m d).
    { assert (Hld : (length (drop m d) <= 1)%nat) by (rewrite length_drop; lia).
      destruct (drop m d) as [|x [|y l]]; cbn in Hld; try reflexivity; lia. }
    assert (Hrev : reverse d = drop m d ++ reverse (take m d)).
    { rewrite <- (take_drop m d) at 1. now rewrite reverse_app, Hmid. }
    rewrite Hrev, app_assoc. now rewrite take_drop.
Qed.

(** [flatMap_rows] is the concatenation of [n] results of the callback. *)
Lemma flatMap_rows_concat (P : list Z -> Prop) f :
  (forall rs, P (fst (f rs))) ->
  forall n rs, exists rows,
    fst (flatMap_rows n f rs) = concat rows /\
    length rows = n /\ Forall P rows.
Proof.
  intros Hf. induction n as [|n IH]; intros rs; cbn.
  - exists []. repeat split. constructor.
  - unfold bind. pose proof (Hf rs) as Hrow.
    destruct (f rs) as [row rs1].
    destruct (IH rs1) as (rows & E & L & F).
    destruct (flatMap_rows n f rs1) as [rest rs2]. cbn [fst snd] in *.
    exists (row :: rows). cbn. rewrite E, L. repeat split. now constructor.
Qed.



(** [createImageData] returns a grid for every array length. *)
Lemma createImageData_ok n rs :
  0 <= n <= 4294967295 ->
  createImageData n n rs =
    (Ok (fst (flatMap_rows (Z.to_nat n)
                (make_row ((n + 1) / 2) (n - (n + 1) / 2)) rs)),
     snd (flatMap_rows (Z.to_nat n)
                (make_row ((n + 1) / 2) (n - (n + 1) / 2)) rs)).
Proof.
  intros Hn. unfold createImageData. rewrite ceil_half.
  destruct (Z.ltb_spec n 0); [lia|]. destruct (Z.ltb_spec 4294967295 n); [lia|].
  cbn. unfold bind, ret.
  now destruct (flatMap_rows _ _ rs).
Qed.

Lemma createImageData_throws n rs :
  n < 0 \/ 4294967295 < n -> createImageData n n rs = (RangeError, rs).
Proof.
  intros Hn. unfold createImageData.
  destruct (Z.ltb_spec n 0); [reflexivity|].
  destruct (Z.ltb_spec 4294967295 n); [reflexivity|lia].
Qed.


End GridFacts.

Section GridShape.

Lemma make_row_mirrored n rs :
  0 <= n -> mirrored_row n (fst (make_row ((n + 1) / 2) (n - (n + 1) / 2) rs)).
Proof.
  intros Hn. unfold mirrored_row. rewrite ceil_half.
  destruct (make_row_mirror n rs Hn) as [L R]. repeat split; [exact L|exact R|].
  rewrite make_row_eq.
  pose proof (draw_row_length (Z.to_nat ((n + 1) / 2)) rs) as Hlen.
  destruct (draw_row (Z.to_nat ((n + 1) / 2)) rs) as [d rs1]. cbn [fst snd] in *.
  exists d. split; [exact Hlen|]. unfold slice0.
  destruct (Z.ltb_spec (n - (n + 1) / 2) 0) as [Hlt|_]; [|reflexivity].
  exfalso. Z.div_mod_to_equations. lia.
Qed.

(** The grid is the concatenation of [n] mirrored rows of cells. *)
Lemma createImageData_rows n rs :
  0 <= n <= 4294967295 ->
  exists rows,
    fst (createImageData n n rs) = Ok (concat rows) /\
    length rows = Z.to_nat n /\
    Forall (fun row => mirrored_row n row /\ Forall is_cell row) rows.
Proof.
  intros Hn. rewrite createImageData_ok by exact Hn. cbn [fst].
  destruct (flatMap_rows_concat
              (fun row => mirrored_row n row /\ Forall is_cell row)
              (make_row ((n + 1) / 2) (n - (n + 1) / 2))
              (fun s => conj (make_row_mirrored n s (proj1 Hn))
                             (make_row_cells _ _ s))
              (Z.to_nat n) rs) as (rows & E & L & F).
  exists rows. now rewrite E.
Qed.

Lemma createImageData_cells n rs data :
  fst (createImageData n n rs) = Ok data -> Forall is_cell data.
Proof.
  intros H.
  destruct (Z_lt_le_dec n 0) as [Hneg|Hpos];
    [rewrite createImageData_throws in H by lia; discriminate|].
  destruct (Z_lt_le_dec 4294967295 n) as [Hbig|Hsmall];
    [rewrite createImageData_throws in H by lia; discriminate|].
  destruct (createImageData_rows n rs (conj Hpos Hsmall)) as (rows & E & _ & F).
  rewrite E in H. injection H as <-.
  apply Forall_concat. eapply Forall_impl; [exact F|]. now intros row [_ ?].
Qed.


End GridShape.





(** ** Colour selector *)

Section ColourFacts.

Local Open Scope Q_scope.

Lemma ltb_true x y : ltb x y = true -> x < y.
Proof. unfold ltb, Qlt. apply Z.ltb_lt. Qed.

Lemma ltb_false x y : ltb x y = false -> y <= x.
Proof. unfold ltb, Qle. intros H. apply Z.ltb_ge in H. exact H. Qed.

(** The operations with their error. *)
Lemma fadd_close x y : -256 <= x + y <= 256 -> x + y - eta <= fadd x y <= x + y + eta.
Proof. unfold eta. apply fl_close. Qed.
Lemma fsub_close x y : -256 <= x - y <= 256 -> x - y - eta <= fsub x y <= x - y + eta.
Proof. unfold eta. apply fl_close. Qed.
Lemma fmul_close x y : -256 <= x * y <= 256 -> x * y - eta <= fmul x y <= x * y + eta.
Proof. unfold eta. apply fl_close. Qed.

(** Interpolation from [p] towards [q] with a weight [6 * t] that every
    rounding may disturb by [e]. *)
Lemma lerp_bound lo hi p q d a t b out e :
  0 <= e <= 1 # 1000 -> lo <= p <= hi -> lo <= q <= hi -> hi - lo <= 101 # 100 ->
  q - p - e <= d <= q - p + e ->
  6 * d - e <= a <= 6 * d + e ->
  0 <= t <= (1 # 6) + 3 * e ->
  a * t - e <= b <= a * t + e ->
  p + b - e <= out <= p + b + e ->
  lo - 30 * e <= out <= hi + 30 * e.
Proof.
  intros He Hp Hq Hw Hd Ha Ht Hb Ho.
  assert (Hat : lo - p - 27 * e <= a * t <= hi - p + 27 * e).
  { destruct (Qlt_le_dec a 0) as [Hneg|Hpos].
    - assert (a * ((1 # 6) + 3 * e) <= a * t) by nra.
      assert (a * t <= 0) by nra.
      assert (q - p - 27 * e <= a * ((1 # 6) + 3 * e)) by nra.
      split; lra.
    - assert (a * t <= a * ((1 # 6) + 3 * e)) by nra.
      assert (0 <= a * t) by nra.
      assert (a * ((1 # 6) + 3 * e) <= q - p + 27 * e) by nra.
      split; lra. }
  split; lra.
Qed.

Lemma lerp_bound' lo hi p q d w m a out e :
  0 <= e <= 1 # 1000 -> lo <= p <= hi -> lo <= q <= hi -> hi - lo <= 101 # 100 ->
  q - p - e <= d <= q - p + e ->
  0 <= w <= (1 # 6) + 3 * e ->
  d * w - e <= m <= d * w + e ->
  m * 6 - e <= a <= m * 6 + e ->
  p + a - e <= out <= p + a + e ->
  lo - 30 * e <= out <= hi + 30 * e.
Proof.
  intros He Hp Hq Hw Hd Hww Hm Ha Ho.
  assert (Hdw : lo - p - 22 * e <= 6 * (d * w) <= hi - p + 22 * e).
  { destruct (Qlt_le_dec d 0) as [Hneg|Hpos].
    - assert (d * ((1 # 6) + 3 * e) <= d * w) by nra.
      assert (d * w <= 0) by nra.
      assert (q - p - 22 * e <= 6 * (d * ((1 # 6) + 3 * e))) by nra.
      split; lra.
    - assert (d * w <= d * ((1 # 6) + 3 * e)) by nra.
      assert (0 <= d * w) by nra.
      assert (6 * (d * ((1 # 6) + 3 * e)) <= q - p + 22 * e) by nra.
      split; lra. }
  split; lra.
Qed.

Lemma eta_small : 0 <= eta <= 1 # 1000.
Proof. unfold eta. split; lra. Qed.

Lemma sixth_close : (1 # 6) - eta <= fdiv 1 6 <= (1 # 6) + eta.
Proof. unfold fdiv, eta. change (1 / 6) with (1 # 6). apply fl_close. lra. Qed.

Lemma half_close : (1 # 2) - eta <= fdiv 1 2 <= (1 # 2) + eta.
Proof. unfold fdiv, eta. change (1 / 2) with (1 # 2). apply fl_close. lra. Qed.

Lemma two_thirds_close : (2 # 3) - eta <= fdiv 2 3 <= (2 # 3) + eta.
Proof. unfold fdiv, eta. change (2 / 3) with (2 # 3). apply fl_close. lra. Qed.

Lemma third_close : (1 # 3) - eta <= fdiv 1 3 <= (1 # 3) + eta.
Proof. unfold fdiv, eta. change (1 / 3) with (1 # 3). apply fl_close. lra. Qed.

(** [hue2rgb] stays between [p] and [q], up to the rounding errors. *)
Lemma hue2rgb_range lo hi p q t :
  -1 <= lo -> hi <= 2 -> hi - lo <= 101 # 100 ->
  lo <= p <= hi -> lo <= q <= hi -> -1 <= t ->
  lo - 30 * eta <= hue2rgb p q t <= hi + 30 * eta.
Proof.
  intros Hlo Hhi Hw Hp Hq Ht. pose proof eta_small as He.
  unfold hue2rgb. cbv zeta.
  set (t1 := if ltb t 0 then fadd t 1 else t).
  assert (H1 : 0 <= t1).
  { unfold t1. destruct (ltb t 0) eqn:E;
      [apply fl_nonneg; lra | apply ltb_false in E; exact E]. }
  set (t2 := if ltb 1 t1 then fsub t1 1 else t1).
  assert (H2 : 0 <= t2).
  { unfold t2. destruct (ltb 1 t1) eqn:E;
      [apply ltb_true in E; apply fl_nonneg; lra | exact H1]. }
  clearbody t2. clear t1 H1 Ht.
  pose proof sixth_close as C6. pose proof half_close as C2.
  pose proof two_thirds_close as C3.
  pose proof (fsub_close q p ltac:(lra)) as Hd.
  set (d := fsub q p) in *.
  destruct (ltb t2 (fdiv 1 6)) eqn:E1;
    [apply ltb_true in E1 | apply ltb_false in E1].
  - pose proof (fmul_close d 6 ltac:(lra)) as Ha.
    set (a := fmul d 6) in *.
    assert (Hat : -8 <= a * t2 <= 8).
    { assert (Ha' : -20 <= a <= 20) by lra.
      assert (Ht' : 0 <= t2 <= 1 # 5) by lra.
      clear - Ha' Ht'. split; nra. }
    pose proof (fmul_close a t2 ltac:(lra)) as Hb.
    set (b := fmul a t2) in *.
    pose proof (fadd_close p b ltac:(lra)) as Ho.
    apply (lerp_bound lo hi p q d a t2 b _ eta); try assumption; lra.
  - destruct (ltb t2 (fdiv 1 2)) eqn:E2;
      [apply ltb_true in E2; lra | apply ltb_false in E2].
    destruct (ltb t2 (fdiv 2 3)) eqn:E3;
      [apply ltb_true in E3 | apply ltb_false in E3; lra].
    pose proof (fl_nonneg (fdiv 2 3 - t2) ltac:(lra)) as Hw0.
    pose proof (fsub_close (fdiv 2 3) t2 ltac:(lra)) as Hw1.
    change (fl (fdiv 2 3 - t2)) with (fsub (fdiv 2 3) t2) in Hw0.
    set (w := fsub (fdiv 2 3) t2) in *.
    assert (Hdw : -4 <= d * w <= 4).
    { assert (Hd' : -4 <= d <= 4) by lra.
      assert (Hw' : 0 <= w <= 1 # 5) by lra.
      clear - Hd' Hw'. split; nra. }
    pose proof (fmul_close d w ltac:(lra)) as Hm.
    set (m := fmul d w) in *.
    pose proof (fmul_close m 6 ltac:(lra)) as Ha.
    set (a := fmul m 6) in *.
    pose proof (fadd_close p a ltac:(lra)) as Ho.
    apply (lerp_bound' lo hi p q d w m a _ eta); try assumption; lra.
Qed.

(** [p] and [q] of [hslToRgb] for a saturation and a lightness in the unit
    interval. *)
Lemma pq_range s l :
  0 <= s <= 1 -> 0 <= l <= 1 ->
  let q := if ltb l 0.5 then fmul l (fadd 1 s)
           else fsub (fadd l s) (fmul l s) in
  let p := fsub (fmul 2 l) q in
  (- (5 * eta) <= p <= 1 + 5 * eta) /\ (- (5 * eta) <= q <= 1 + 5 * eta).
Proof.
  intros Hs Hl. pose proof eta_small as He. cbv zeta.
  pose proof (fmul_close 2 l ltac:(lra)) as H2l.
  set (l2 := fmul 2 l) in *.
  destruct (ltb l 0.5) eqn:E; [apply ltb_true in E | apply ltb_false in E].
  - pose proof (fadd_close 1 s ltac:(lra)) as Hu.
    set (u := fadd 1 s) in *.
    assert (Hls : 0 <= l * s <= l) by (clear - Hs Hl; split; nra).
    assert (Hlu : l * (1 + s) - eta <= l * u <= l * (1 + s) + eta)
      by (clear - Hu Hl He; split; nra).
    pose proof (fmul_close l u ltac:(lra)) as Hq.
    set (q := fmul l u) in *.
    pose proof (fsub_close l2 q ltac:(lra)) as Hp.
    split; split; lra.
  - pose proof (fadd_close l s ltac:(lra)) as Hx1.
    set (x1 := fadd l s) in *.
    assert (Hls : 0 <= l * s <= s /\ l * s <= l)
      by (clear - Hs Hl; repeat split; nra).
    pose proof (fmul_close l s ltac:(lra)) as Hx2.
    set (x2 := fmul l s) in *.
    pose proof (fsub_close x1 x2 ltac:(lra)) as Hq.
    set (q := fsub x1 x2) in *.
    assert (Hid : 2 * l - 1 <= l + s - l * s <= 1 /\ l <= l + s - l * s)
      by (clear - Hs Hl; repeat split; nra).
    pose proof (fsub_close l2 q ltac:(lra)) as Hp.
    split; split; lra.
Qed.

(** [Math.round(c * 255)] is a byte for a channel in the unit interval, up
    to the rounding errors. *)
Lemma channel_byte c :
  - (1 # 1000) <= c <= 1 + (1 # 1000) -> (0 <= round (fmul c 255) <= 255)%Z.
Proof.
  intros Hc. pose proof (fmul_close c 255 ltac:(lra)) as H.
  unfold eta in H. unfold round.
  apply floor_bounds;
    [change (inject_Z 0) with 0 | change (inject_Z (255 + 1)) with 256]; lra.
Qed.

Lemma hue_arg_lower h : 0 <= h -> -1 <= fsub h (fdiv 1 3).
Proof.
  intros Hh. pose proof third_close as C. pose proof eta_small as He.
  destruct (Qlt_le_dec (h - fdiv 1 3) 0) as [Hneg|Hpos].
  - pose proof (fsub_close h (fdiv 1 3) ltac:(lra)). lra.
  - pose proof (fl_nonneg _ Hpos). unfold fsub. lra.
Qed.

(** The conversion maps the unit cube to byte triples. *)
Lemma hslToRgb_bytes h s l :
  0 <= h -> 0 <= s <= 1 -> 0 <= l <= 1 -> is_rgb (hslToRgb h s l).
Proof.
  intros Hh Hs Hl. pose proof eta_small as He. unfold hslToRgb.
  destruct (Qeq_bool s 0).
  - unfold is_rgb. pose proof (channel_byte l ltac:(lra)). tauto.
  - destruct (pq_range s l Hs Hl) as [Hp Hq]. cbv zeta in Hp, Hq.
    set (q := if ltb l 0.5 then _ else _) in *.
    set (p := fsub (fmul 2 l) q) in *.
    pose proof third_close as C.
    assert (Ht1 : -1 <= fadd h (fdiv 1 3)).
    { pose proof (fl_nonneg (h + fdiv 1 3) ltac:(lra)). unfold fadd. lra. }
    pose proof (hue_arg_lower h Hh) as Ht3.
    pose proof (hue2rgb_range (- (5 * eta)) (1 + 5 * eta) p q (fadd h (fdiv 1 3))
                  ltac:(lra) ltac:(lra) ltac:(lra) Hp Hq Ht1) as Hr.
    pose proof (hue2rgb_range (- (5 * eta)) (1 + 5 * eta) p q h
                  ltac:(lra) ltac:(lra) ltac:(lra) Hp Hq ltac:(lra)) as Hg.
    pose proof (hue2rgb_range (- (5 * eta)) (1 + 5 * eta) p q (fsub h (fdiv 1 3))
                  ltac:(lra) ltac:(lra) ltac:(lra) Hp Hq Ht3) as Hb.
    unfold eta in *. unfold is_rgb.
    pose proof (channel_byte (hue2rgb p q (fadd h (fdiv 1 3))) ltac:(lra)).
    pose proof (channel_byte (hue2rgb p q h) ltac:(lra)).
    pose proof (channel_byte (hue2rgb p q (fsub h (fdiv 1 3))) ltac:(lra)).
    tauto.
Qed.

(** [createHSL] written out as its six draws. *)
Lemma createHSL_eq rs :
  createHSL rs =
    (let (h, rs1) := rand rs in
     let (r, rs2) := rand rs1 in
     let (l1, rs3) := rand rs2 in
     let (l2, rs4) := rand rs3 in
     let (l3, rs5) := rand rs4 in
     let (l4, rs6) := rand rs5 in
     ((h, fadd (fmul r (fl 0.6)) (fl 0.4),
       fdiv (fadd (fadd (fadd l1 l2) l3) l4) 4), rs6)).
Proof. reflexivity. Qed.

(** The state left by [createHSL] is the state after six draws. *)
Lemma createHSL_state rs : snd (createHSL rs) = draws 6 rs.
Proof. reflexivity. Qed.

(** The saturation [r * 0.6 + 0.4] of a draw [r]. The lower bound is the
    double nearest to 0.4, which is above 0.4. *)
Lemma saturation_range r :
  0 <= r <= 1 - (1 # 2147483648) ->
  0.4 <= fadd (fmul r (fl 0.6)) (fl 0.4) < 1.
Proof.
  intros Hr. pose proof (fl_close 0.6 ltac:(lra)) as C6.
  pose proof (fl_close 0.4 ltac:(lra)) as C4.
  assert (G4 : fl 0.4 == inject_Z 7205759403792794 * 2 ^ (-2 - 52))
    by (apply Qeq_bool_iff; vm_compute; reflexivity).
  assert (L4 : 0.4 <= fl 0.4) by (apply Qle_bool_iff; vm_compute; reflexivity).
  set (c6 := fl 0.6) in *. set (c4 := fl 0.4) in *.
  assert (Hp : 0 <= r * c6 <= (1 - (1 # 2147483648)) * (0.6 + eta)).
  { unfold eta. clear - Hr C6. split; nra. }
  unfold eta in Hp.
  pose proof (fl_nonneg (r * c6) ltac:(lra)) as X0.
  pose proof (fmul_close r c6 ltac:(lra)) as X1. unfold eta in X1.
  change (fl (r * c6)) with (fmul r c6) in X0. set (x := fmul r c6) in *.
  pose proof (fadd_close x c4 ltac:(lra)) as S1. unfold eta in S1.
  split; [|lra].
  destruct (Qlt_le_dec (x + c4) (1 # 2)) as [Hlow|Hhigh]; [|lra].
  pose proof (fl_ge_grid (x + c4) (-2) 7205759403792794) as G.
  change (2 ^ (-2)) with (1 # 4) in G. change (2 ^ (-2 + 1)) with (1 # 2) in G.
  specialize (G ltac:(lra) ltac:(lia) ltac:(lra)).
  unfold fadd. lra.
Qed.

(** The lightness, the mean of four draws. *)
Lemma lightness_range l1 l2 l3 l4 :
  0 <= l1 <= 1 - (1 # 2147483648) -> 0 <= l2 <= 1 - (1 # 2147483648) ->
  0 <= l3 <= 1 - (1 # 2147483648) -> 0 <= l4 <= 1 - (1 # 2147483648) ->
  0 <= fdiv (fadd (fadd (fadd l1 l2) l3) l4) 4 < 1.
Proof.
  intros H1 H2 H3 H4.
  pose proof (fl_nonneg (l1 + l2) ltac:(lra)) as A0.
  pose proof (fadd_close l1 l2 ltac:(lra)) as A1. unfold eta in A1.
  change (fl (l1 + l2)) with (fadd l1 l2) in A0. set (a := fadd l1 l2) in *.
  pose proof (fl_nonneg (a + l3) ltac:(lra)) as B0.
  pose proof (fadd_close a l3 ltac:(lra)) as B1. unfold eta in B1.
  change (fl (a + l3)) with (fadd a l3) in B0. set (b := fadd a l3) in *.
  pose proof (fl_nonneg (b + l4) ltac:(lra)) as C0.
  pose proof (fadd_close b l4 ltac:(lra)) as C1. unfold eta in C1.
  change (fl (b + l4)) with (fadd b l4) in C0. set (c := fadd b l4) in *.
  unfold fdiv. change (c / 4) with (c * (1 # 4)).
  pose proof (fl_nonneg (c * (1 # 4)) ltac:(lra)) as D0.
  pose proof (fl_close (c * (1 # 4)) ltac:(lra)) as D1.
  split; lra.
Qed.

(** Hue in [0,1), saturation in [0.4,1), lightness in [0,1). *)
Lemma createHSL_range rs :
  let '(h, s, l) := fst (createHSL rs) in
  0 <= h < 1 /\ 0.4 <= s < 1 /\ 0 <= l < 1.
Proof.
  rewrite createHSL_eq.
  pose proof (rand_range rs) as H1. destruct (rand rs) as [h rs1].
  pose proof (rand_range rs1) as H2. pose proof (rand_below rs1) as B2.
  destruct (rand rs1) as [r rs2].
  pose proof (rand_range rs2) as H3. pose proof (rand_below rs2) as B3.
  destruct (rand rs2) as [l1 rs3].
  pose proof (rand_range rs3) as H4. pose proof (rand_below rs3) as B4.
  destruct (rand rs3) as [l2 rs4].
  pose proof (rand_range rs4) as H5. pose proof (rand_below rs4) as B5.
  destruct (rand rs4) as [l3 rs5].
  pose proof (rand_range rs5) as H6. pose proof (rand_below rs5) as B6.
  destruct (rand rs5) as [l4 rs6].
  cbn [fst] in *. split; [exact H1|]. split.
  - apply saturation_range. lra.
  - apply lightness_range; lra.
Qed.

(** The colour derived from six draws is a byte triple. *)
Lemma derived_color_bytes rs :
  let '(h, s, l) := fst (createHSL rs) in is_rgb (hslToRgb h s l).
Proof.
  pose proof (createHSL_range rs) as H.
  destruct (fst (createHSL rs)) as [[h s] l].
  apply hslToRgb_bytes; lra.
Qed.

End ColourFacts.

(** C3: for every engine state, the colour triple obtained by drawing
    HSL values with [createHSL] (hue = rand(), saturation =
    rand() * 0.6 + 0.4, lightness = the mean of four draws, each operation
    rounded to a double) and converting them with [hslToRgb] has every
    channel an integer in [0,255]. *)
Theorem hsl_color_channels_are_bytes (rs : RandSeed) :
  let (h, rs1) := rand rs in
  let (r, rs2) := rand rs1 in
  let (l1, rs3) := rand rs2 in
  let (l2, rs4) := rand rs3 in
  let (l3, rs5) := rand rs4 in
  let (l4, rs6) := rand rs5 in
  let s := fadd (fmul r (fl 0.6)) (fl 0.4) in
  let l := fdiv (fadd (fadd (fadd l1 l2) l3) l4) 4 in
  fst (createHSL rs) = (h, s, l) /\
  let '(red, green, blue) := hslToRgb h s l in
  0 <= red <= 255 /\ 0 <= green <= 255 /\ 0 <= blue <= 255.
Proof.
  pose proof (derived_color_bytes rs) as H. rewrite createHSL_eq in H |- *.
  destruct (rand rs) as [h rs1]. destruct (rand rs1) as [r rs2].
  destruct (rand rs2) as [l1 rs3]. destruct (rand rs3) as [l2 rs4].
  destruct (rand rs4) as [l3 rs5]. destruct (rand rs5) as [l4 rs6].
  cbn [fst] in H. cbv zeta. split; [reflexivity|]. exact H.
Qed.

(** ** Raster compositor *)

Section Stores.

Lemma put_length data o v : length (put data o v) = length data.
Proof. unfold put. destruct (o <? 0); [reflexivity | apply length_insert]. Qed.

Lemma put_lookup_same data (k : nat) v :
  (k < length data)%nat -> put data (Z.of_nat k) v !! k = Some (v mod 256).
Proof.
  intros Hk. unfold put. destruct (Z.ltb_spec (Z.of_nat k) 0); [lia|].
  rewrite Nat2Z.id. now apply list_lookup_insert_eq.
Qed.

Lemma put_lookup_other data o (k : nat) v :
  o <> Z.of_nat k -> put data o v !! k = data !! k.
Proof.
  intros Hne. unfold put. destruct (Z.ltb_spec o 0); [reflexivity|].
  apply list_lookup_insert_ne. lia.
Qed.

Lemma put_all_length ws : forall data, length (put_all ws data) = length data.
Proof.
  induction ws as [|w ws IH]; intros data; [reflexivity|].
  cbn. unfold put_all in IH. now rewrite IH, put_length.
Qed.

Lemma put_all_app ws1 ws2 data :
  put_all (ws1 ++ ws2) data = put_all ws2 (put_all ws1 data).
Proof. apply foldl_app. Qed.

(** The byte at [k] after a sequence of stores, when all the stores made
    at [k] agree on the byte [v] and either one is made or [v] was there. *)
Lemma put_all_lookup ws : forall data (k : nat) v,
  (forall o v', (o, v') ∈ ws -> o = Z.of_nat k -> v' mod 256 = v) ->
  (exists v', (Z.of_nat k, v') ∈ ws) \/ data !! k = Some v ->
  (k < length data)%nat ->
  put_all ws data !! k = Some v.
Proof.
  induction ws as [|[o v'] ws IH]; intros data k v Hsame Hsome Hk.
  - destruct Hsome as [[? H]|H]; [inversion H | exact H].
  - cbn. apply IH.
    + intros o2 v2 Hin. apply Hsame. now right.
    + destruct (Z.eq_dec o (Z.of_nat k)) as [->|Hne].
      * right. rewrite put_lookup_same by exact Hk. f_equal.
        apply (Hsame (Z.of_nat k) v'); [left|reflexivity].
      * rewrite put_lookup_other by exact Hne.
        destruct Hsome as [[v2 H]|H]; [|now right].
        left. exists v2. apply elem_of_cons in H as [H|H]; [congruence|exact H].
    + now rewrite put_length.
Qed.

(** Nested loops of stores flatten into one sequence. *)
Lemma foldl_put_all {A} (g : A -> list (Z * Z)) (l : list A) : forall data,
  foldl (fun d a => put_all (g a) d) data l = put_all (l ≫= g) data.
Proof.
  induction l as [|a l IH]; intros data; [reflexivity|].
  rewrite bind_cons, put_all_app, <- IH. reflexivity.
Qed.

Lemma foldl_pointwise {A B} (f g : A -> B -> A) (l : list B) :
  (forall a b, f a b = g a b) -> forall a, foldl f a l = foldl g a l.
Proof.
  intros Hfg. induction l as [|b l IH]; intros a; [reflexivity|].
  cbn. now rewrite Hfg, IH.
Qed.

Lemma paint_pixel_writes options idx color data y x :
  paint_pixel options idx color data y x
  = put_all (pixel_writes options idx color y x) data.
Proof. destruct color as [[r g] b]. reflexivity. Qed.

Lemma paint_cell_writes options idx color data :
  paint_cell options idx color data = put_all (cell_writes options idx color) data.
Proof.
  unfold paint_cell, cell_writes.
  rewrite <- foldl_put_all. apply foldl_pointwise. intros d y.
  rewrite <- foldl_put_all. apply foldl_pointwise. intros d' x.
  apply paint_pixel_writes.
Qed.

Lemma composite_writes options imageData data :
  composite options imageData data = put_all (all_writes options imageData) data.
Proof.
  unfold composite, all_writes. rewrite <- foldl_put_all.
  apply foldl_pointwise. intros d i. apply paint_cell_writes.
Qed.

Lemma composite_length options imageData data :
  length (composite options imageData data) = length data.
Proof. rewrite composite_writes. apply put_all_length. Qed.

Lemma elem_of_range n k : k ∈ range n <-> 0 <= k < n.
Proof. unfold range. rewrite elem_of_seqZ. lia. Qed.

(** A store of [composite]: cell [i], block row [y], block column [x],
    byte [j]. *)
Lemma elem_of_all_writes options imageData o v :
  (o, v) ∈ all_writes options imageData <->
  exists i y x j,
    0 <= i < Z.of_nat (length imageData) /\
    0 <= y < o_scale options /\ 0 <= x < o_scale options /\ 0 <= j < 4 /\
    o = cell_idx options imageData i
        + (x + y * o_size options * o_scale options) * 4 + j /\
    v = channel (cell_color options imageData i) j.
Proof.
  unfold all_writes, cell_writes, pixel_writes. split.
  - intros H.
    apply list_elem_of_bind in H as (i & H & Hi).
    apply list_elem_of_bind in H as (y & H & Hy).
    apply list_elem_of_bind in H as (x & H & Hx).
    apply elem_of_range in Hi, Hy, Hx.
    exists i, y, x.
    repeat (apply elem_of_cons in H as [H|H]);
      [exists 0 | exists 1 | exists 2 | exists 3 | inversion H];
      injection H as -> ->; repeat split; lia.
  - intros (i & y & x & j & Hi & Hy & Hx & Hj & -> & ->).
    apply list_elem_of_bind. exists i. split; [|now apply elem_of_range].
    apply list_elem_of_bind. exists y. split; [|now apply elem_of_range].
    apply list_elem_of_bind. exists x. split; [|now apply elem_of_range].
    assert (j = 0 \/ j = 1 \/ j = 2 \/ j = 3) as [-> | [-> | [-> | ->]]] by lia.
    + rewrite Z.add_0_r. apply elem_of_cons. now left.
    + do 1 (apply elem_of_cons; right). apply elem_of_cons. now left.
    + do 2 (apply elem_of_cons; right). apply elem_of_cons. now left.
    + do 3 (apply elem_of_cons; right). apply elem_of_cons. now left.
Qed.

End Stores.

Section Blocks.

(** Quotient and remainder determine each other. *)
Lemma euclid_unique m a b a' b' :
  0 <= b < m -> 0 <= b' < m -> a * m + b = a' * m + b' -> a = a' /\ b = b'.
Proof.
  intros Hb Hb' H. assert (a = a') by nia. subst a'. lia.
Qed.

Lemma divmod_of_sum n r c :
  0 <= c < n -> (r * n + c) / n = r /\ (r * n + c) mod n = c.
Proof.
  intros Hc.
  pose proof (Z.div_mod (r * n + c) n ltac:(lia)) as E.
  pose proof (Z.mod_pos_bound (r * n + c) n ltac:(lia)) as B.
  destruct (euclid_unique n r c ((r * n + c) / n) ((r * n + c) mod n) Hc B
              ltac:(lia)) as [E1 E2].
  split; symmetry; assumption.
Qed.

Lemma block_coord_bound n s c x :
  0 <= c < n -> 0 <= x < s -> 0 <= c * s + x < n * s.
Proof. intros Hc Hx. nia. Qed.

Variable options : OptionsObject.
Variable imageData : list Z.

Let N := o_size options.
Let S := o_scale options.

Hypothesis size_pos : 1 <= N.
Hypothesis scale_pos : 1 <= S.
Hypothesis grid_length : length imageData = Z.to_nat (N * N).

Lemma grid_width : Z.sqrt (Z.of_nat (length imageData)) = N.
Proof.
  rewrite grid_length, Z2Nat.id by nia. apply Z.sqrt_square. lia.
Qed.

(** The offset of cell [(r, c)]: its block starts at pixel
    [(r * S, c * S)]. *)
Lemma cell_idx_block r c :
  0 <= c < N ->
  cell_idx options imageData (r * N + c) = 4 * ((r * S) * (N * S) + c * S).
Proof.
  intros Hc. unfold cell_idx. rewrite grid_width.
  destruct (divmod_of_sum N r c Hc) as [-> ->]. fold N S. ring.
Qed.

(** The byte stored for channel [j] of the pixel at block position
    [(y, x)] of cell [(r, c)]. *)
Lemma composite_byte data r c y x j :
  length data = Z.to_nat (4 * (N * S) * (N * S)) ->
  0 <= r < N -> 0 <= c < N -> 0 <= y < S -> 0 <= x < S -> 0 <= j < 4 ->
  composite options imageData data
    !! Z.to_nat (4 * ((r * S + y) * (N * S) + (c * S + x)) + j)
  = Some (channel (cell_color options imageData (r * N + c)) j mod 256).
Proof.
  intros Hlen Hr Hc Hy Hx Hj.
  pose proof (block_coord_bound N S c x Hc Hx) as Hpx.
  pose proof (block_coord_bound N S r y Hr Hy) as Hpy.
  set (K := 4 * ((r * S + y) * (N * S) + (c * S + x)) + j).
  assert (HK : 0 <= K < 4 * (N * S) * (N * S)) by (unfold K; nia).
  rewrite composite_writes. apply put_all_lookup.
  - intros o v' Hin Ho. rewrite Z2Nat.id in Ho by lia.
    apply elem_of_all_writes in Hin
      as (i & y' & x' & j' & Hi & Hy' & Hx' & Hj' & Eo & ->).
    fold N S in Hy', Hx', Eo.
    rewrite grid_length, Z2Nat.id in Hi by nia.
    pose proof (Z.div_mod i N ltac:(lia)) as Ei.
    pose proof (Z.mod_pos_bound i N ltac:(lia)) as Bi.
    set (r' := i / N) in *. set (c' := i mod N) in *.
    assert (Hi' : i = r' * N + c') by lia.
    rewrite Hi' in Eo. rewrite cell_idx_block in Eo by exact Bi.
    pose proof (block_coord_bound N S c' x' Bi Hx') as Hpx'.
    assert (Ejj : j' = j /\
              (r' * S + y') * (N * S) + (c' * S + x')
              = (r * S + y) * (N * S) + (c * S + x)).
    { unfold K in Ho. lia. }
    destruct Ejj as [-> EA].
    destruct (euclid_unique (N * S) _ _ _ _ Hpx' Hpx EA) as [Erow Ecol].
    destruct (euclid_unique S _ _ _ _ Hy' Hy Erow) as [-> _].
    destruct (euclid_unique S _ _ _ _ Hx' Hx Ecol) as [-> _].
    now rewrite Hi'.
  - left. exists (channel (cell_color options imageData (r * N + c)) j).
    rewrite Z2Nat.id by lia.
    apply elem_of_all_writes. exists (r * N + c), y, x, j.
    fold N S. rewrite grid_length, Z2Nat.id by nia.
    rewrite cell_idx_block by exact Hc.
    repeat split; first [lia | nia | (unfold K; ring)].
  - rewrite Hlen. lia.
Qed.

(** The pixel at block position [(y, x)] of cell [(r, c)] holds the
    colour picked for the cell, byte by byte, and the alpha byte 255. *)
Lemma composite_pixel data r c y x :
  length data = Z.to_nat (4 * (N * S) * (N * S)) ->
  0 <= r < N -> 0 <= c < N -> 0 <= y < S -> 0 <= x < S ->
  pixel_at (composite options imageData data) (N * S) (r * S + y) (c * S + x)
  = let '(red, green, blue) := cell_color options imageData (r * N + c) in
    [Some (red mod 256); Some (green mod 256); Some (blue mod 256); Some 255].
Proof.
  intros Hlen Hr Hc Hy Hx. unfold pixel_at.
  pose proof (block_coord_bound N S c x Hc Hx) as Hpx.
  pose proof (block_coord_bound N S r y Hr Hy) as Hpy.
  set (P := (r * S + y) * (N * S) + (c * S + x)).
  assert (HP : 0 <= P) by (unfold P; nia).
  pose proof (composite_byte data r c y x 0 Hlen Hr Hc Hy Hx ltac:(lia)) as B0.
  pose proof (composite_byte data r c y x 1 Hlen Hr Hc Hy Hx ltac:(lia)) as B1.
  pose proof (composite_byte data r c y x 2 Hlen Hr Hc Hy Hx ltac:(lia)) as B2.
  pose proof (composite_byte data r c y x 3 Hlen Hr Hc Hy Hx ltac:(lia)) as B3.
  fold P in B0, B1, B2, B3.
  replace (Z.to_nat (4 * P + 0)) with (Z.to_nat (4 * P)) in B0 by lia.
  replace (Z.to_nat (4 * P + 1)) with (Z.to_nat (4 * P) + 1)%nat in B1 by lia.
  replace (Z.to_nat (4 * P + 2)) with (Z.to_nat (4 * P) + 2)%nat in B2 by lia.
  replace (Z.to_nat (4 * P + 3)) with (Z.to_nat (4 * P) + 3)%nat in B3 by lia.
  rewrite B0, B1, B2, B3.
  destruct (cell_color options imageData (r * N + c)) as [[red green] blue].
  reflexivity.
Qed.

End Blocks.

(** ** [createBuffer] *)

Section Pipeline.





(** [createBuffer] in three phases: the options and the colour first, then
    the grid, then the image. *)
Lemma createBuffer_eq optsParam entropy p :
  createBuffer optsParam entropy p =
    (let '(options, rs) := buffer_state optsParam entropy p in
     let '(res, rs') := createImageData (o_size options) (o_size options) rs in
     (and_then res (render options), mkProcess rs' options)).
Proof.
  unfold createBuffer, buffer_state.
  destruct (createHSL _) as [[[h s] l] rs].
  cbn [o_size o_scale o_seed o_fgColor o_bgColor o_spotColor].
  destruct (createImageData _ _ rs) as [res rs']; reflexivity.
Qed.

Lemma alloc_ok n : n <= kMaxLength -> alloc n = Ok (repeat 0 (Z.to_nat n)).
Proof. intros H. unfold alloc. now destruct (Z.leb_spec n kMaxLength); [|lia]. Qed.


Lemma fits_bounds w :
  fits w -> 0 < w < 2147483648 /\ 4 * w * w <= kMaxLength.
Proof. unfold fits, kMaxLength. intros [H0 H1]. split; nia. Qed.

Lemma blank_length w : 0 < w -> length (blank w) = Z.to_nat (4 * w * w).
Proof.
  intros Hw. unfold blank. destruct (Z.ltb_spec 0 w); [|lia]. apply repeat_length.
Qed.

Lemma blank_empty w : w <= 0 -> blank w = [].
Proof. intros Hw. unfold blank. now destruct (Z.ltb_spec 0 w); [lia|]. Qed.

Lemma no_data_length png : no_data png = true <-> length (png_data png) = 0%nat.
Proof. unfold no_data. destruct (png_data png); cbn; split; congruence. Qed.

Lemma no_data_blank w : 0 < w -> no_data (mkPNG w w (blank w)) = false.
Proof.
  intros Hw. destruct (no_data _) eqn:E; [|reflexivity].
  apply no_data_length in E. cbn [png_data] in E.
  rewrite blank_length in E by lia. lia.
Qed.

(** [new PNG] by the dimension that [| 0] leaves. *)
Lemma newPNG_no_pixels x :
  toInt32 x <= 0 -> newPNG x x = Ok (mkPNG (toInt32 x) (toInt32 x) []).
Proof.
  intros H. unfold newPNG. now destruct (Z.ltb_spec 0 (toInt32 x)); [lia|].
Qed.

Lemma newPNG_pixels x :
  0 < toInt32 x -> 4 * toInt32 x * toInt32 x <= kMaxLength ->
  newPNG x x = Ok (mkPNG (toInt32 x) (toInt32 x) (blank (toInt32 x))).
Proof.
  intros H Ha. unfold newPNG, blank. destruct (Z.ltb_spec 0 (toInt32 x)); [|lia].
  cbn [andb]. now rewrite alloc_ok.
Qed.


(** The encoder by the dimensions of a square image. *)
Lemma sync_write_fits w data :
  0 <= w -> (4 * w + 1) * w <= kMaxLength ->
  sync_write (mkPNG w w data) = Ok (mkPNG w w data).
Proof.
  intros Hw Hf. unfold sync_write. cbn [png_width png_height].
  destruct (Z.ltb_spec w 0); [lia|]. cbn [orb]. now rewrite alloc_ok.
Qed.


Lemma sync_write_negative w data :
  w < 0 -> sync_write (mkPNG w w data) = RangeError.
Proof.
  intros Hw. unfold sync_write. cbn [png_width png_height].
  now destruct (Z.ltb_spec w 0); [|lia].
Qed.

(** The loops end when their bound is a count. *)
Lemma counted s b : s <= max_count -> b && (max_count <? s) = false.
Proof.
  intros H. destruct (Z.ltb_spec max_count s); [lia|]. apply andb_false_r.
Qed.

(** A scale whose product with the size is a positive 31-bit number. *)
Lemma scale_counted n s : 0 < n * s < 2147483648 -> s <= max_count.
Proof.
  unfold max_count. intros H.
  destruct (Z.le_gt_cases s 9007199254740992) as [Hs|Hs]; [exact Hs|].
  assert (0 < n) by nia. nia.
Qed.

(** The image phase when the dimension left by [| 0] fits: the painted
    buffer reaches the encoder and the call returns. *)
Lemma render_positive options imageData :
  let w := toInt32 (num (o_size options * o_scale options)) in
  fits w -> o_scale options <= max_count ->
  render options imageData
  = Ok (mkPNG w w (composite options imageData (blank w))).
Proof.
  intros w Hf Hs. destruct (fits_bounds _ Hf) as [Hw Ha].
  unfold render. rewrite (newPNG_pixels _ (proj1 Hw) Ha). fold w.
  cbn [and_then]. rewrite no_data_blank by lia. cbn [andb].
  rewrite counted by exact Hs. cbn [png_width png_height png_data].
  apply sync_write_fits; [lia | now destruct Hf].
Qed.

(** When the product of size and scale itself fits, that painted buffer is
    the sample buffer. *)
Lemma render_fits options imageData :
  fits (o_size options * o_scale options) ->
  render options imageData = Ok (sample_buffer options imageData).
Proof.
  intros Hf. destruct (fits_bounds _ Hf) as [Hw Ha].
  pose proof (render_positive options imageData) as H. cbv zeta in H.
  unfold kMaxLength in Ha.
  rewrite num_small, toInt32_small in H by lia.
  apply H; [exact Hf | apply (scale_counted (o_size options)); lia].
Qed.

(** The image phase when [| 0] leaves no positive dimension: a TypeError at
    the first store, else a RangeError from the encoder for a negative
    width, else an image without pixels. *)
Lemma render_no_pixels options imageData :
  let w := toInt32 (num (o_size options * o_scale options)) in
  w <= 0 ->
  render options imageData =
    if (0 <? Z.of_nat (length imageData)) && (0 <? o_scale options)
    then TypeError
    else if w <? 0 then RangeError
    else Ok (mkPNG 0 0 []).
Proof.
  intros w Hw. unfold render. rewrite newPNG_no_pixels by exact Hw. fold w.
  cbn [and_then no_data png_width png_height png_data andb].
  destruct ((0 <? Z.of_nat (length imageData)) && (0 <? o_scale options));
    [reflexivity|]. cbn [andb].
  assert (Hc : composite options imageData [] = []).
  { apply length_zero_iff_nil. now rewrite composite_length. }
  rewrite Hc.
  destruct (Z.ltb_spec w 0); [now apply sync_write_negative|].
  assert (E : w = 0) by lia. rewrite E. reflexivity.
Qed.



Lemma createBuffer_run optsParam entropy p options rs imageData rs' :
  buffer_state optsParam entropy p = (options, rs) ->
  createImageData (o_size options) (o_size options) rs = (Ok imageData, rs') ->
  fits (o_size options * o_scale options) ->
  createBuffer optsParam entropy p
  = (Ok (sample_buffer options imageData), mkProcess rs' options).
Proof.
  intros H1 H2 H3. rewrite createBuffer_eq, H1, H2. cbn [and_then].
  now rewrite render_fits.
Qed.

Lemma createBuffer_throw optsParam entropy p options rs rs' :
  buffer_state optsParam entropy p = (options, rs) ->
  createImageData (o_size options) (o_size options) rs = (RangeError, rs') ->
  createBuffer optsParam entropy p = (RangeError, mkProcess rs' options).
Proof. intros H1 H2. now rewrite createBuffer_eq, H1, H2. Qed.

(** The fields of the options object after the assignments. *)
Lemma buffer_state_fields optsParam entropy p :
  let options := fst (buffer_state optsParam entropy p) in
  let sd := nullish (seed optsParam) entropy in
  let '(h, s, l) := fst (createHSL (createRandSeed sd (randseed p))) in
  o_size options = nullish (size optsParam) (o_size (defaultOptions p)) /\
  o_scale options = nullish (scale optsParam) (o_scale (defaultOptions p)) /\
  o_seed options = sd /\
  o_fgColor options = nullish (fgColor optsParam) (hslToRgb h s l) /\
  o_bgColor options = nullish (bgColor optsParam) (o_bgColor (defaultOptions p)) /\
  o_spotColor options = nullish (spotColor optsParam) (hslToRgb h s l) /\
  snd (buffer_state optsParam entropy p)
  = draws 6 (createRandSeed sd (randseed p)).
Proof.
  unfold buffer_state. cbv zeta.
  rewrite <- createHSL_state.
  destruct (createHSL _) as [[[h s] l] rs]. cbn. repeat split.
Qed.

Lemma pick_color_cases options cell :
  pick_color options cell = o_bgColor options \/
  pick_color options cell = o_fgColor options \/
  pick_color options cell = o_spotColor options.
Proof.
  unfold pick_color. destruct cell as [[|[| |]|]|]; tauto.
Qed.

Lemma pick_color_default options cell :
  cell <> Some 0 -> cell <> Some 1 ->
  pick_color options cell = o_spotColor options.
Proof.
  unfold pick_color. intros H0 H1. destruct cell as [[|[| |]|]|]; congruence.
Qed.


End Pipeline.

Section Painting.

(** What the compositor leaves in the buffer, for any grid of [N * N]
    cells, any [N >= 1] and any [S >= 1]. *)
Lemma sample_buffer_painted options imageData :
  let N := o_size options in
  let S := o_scale options in
  1 <= N -> 1 <= S -> length imageData = Z.to_nat (N * N) ->
  let png := sample_buffer options imageData in
  png_width png = N * S /\ png_height png = N * S /\
  length (png_data png) = Z.to_nat (4 * (N * S) * (N * S)) /\
  (forall py px, 0 <= py < N * S -> 0 <= px < N * S ->
     png_data png !! Z.to_nat (4 * (py * (N * S) + px) + 3) = Some 255) /\
  (forall r c y x, 0 <= r < N -> 0 <= c < N -> 0 <= y < S -> 0 <= x < S ->
     pixel_at (png_data png) (N * S) (r * S + y) (c * S + x)
     = let '(red, green, blue) := cell_color options imageData (r * N + c) in
       [Some (red mod 256); Some (green mod 256); Some (blue mod 256); Some 255]).
Proof.
  intros N S HN HS Hlen png.
  assert (HW : 0 < N * S) by nia.
  pose proof (blank_length (N * S) HW) as Hdata.
  unfold png, sample_buffer. fold N S. cbn [png_width png_height png_data].
  repeat split.
  - now rewrite composite_length.
  - intros py px Hpy Hpx.
    pose proof (Z.div_mod py S ltac:(lia)) as Ey.
    pose proof (Z.mod_pos_bound py S ltac:(lia)) as By.
    pose proof (Z.div_mod px S ltac:(lia)) as Ex.
    pose proof (Z.mod_pos_bound px S ltac:(lia)) as Bx.
    assert (Hr : 0 <= py / S < N)
      by (split; [apply Z.div_pos; lia | apply Z.div_lt_upper_bound; lia]).
    assert (Hc : 0 <= px / S < N)
      by (split; [apply Z.div_pos; lia | apply Z.div_lt_upper_bound; lia]).
    pose proof (composite_byte options imageData HN HS Hlen _
                  (py / S) (px / S) (py mod S) (px mod S) 3
                  Hdata Hr Hc By Bx ltac:(lia)) as B.
    fold N S in B.
    replace (py / S * S + py mod S) with py in B by lia.
    replace (px / S * S + px mod S) with px in B by lia.
    rewrite B. now destruct (cell_color _ _ _) as [[? ?] ?].
  - intros r c y x Hr Hc Hy Hx.
    exact (composite_pixel options imageData HN HS Hlen _ r c y x
             Hdata Hr Hc Hy Hx).
Qed.


End Painting.




(** ** Repeated calls in one process *)

Section FirstByte.

(** The red byte of the top-left pixel. *)
Lemma sample_buffer_first_byte options imageData :
  1 <= o_size options -> 1 <= o_scale options ->
  length imageData = Z.to_nat (o_size options * o_size options) ->
  png_data (sample_buffer options imageData) !! 0%nat
  = Some (channel (pick_color options (imageData !! 0%nat)) 0 mod 256).
Proof.
  intros HN HS Hlen.
  assert (HW : 0 < o_size options * o_scale options) by nia.
  exact (composite_byte options imageData HN HS Hlen _ 0 0 0 0 0
           (blank_length _ HW) ltac:(lia) ltac:(lia) ltac:(lia) ltac:(lia)
           ltac:(lia)).
Qed.

End FirstByte.

Import Runs.

(** C1, evaluated: in a fresh process, [createBuffer({ seed: 'a' })] called
    twice returns two different sample buffers. The first call paints the
    top-left pixel with the background colour (red byte 255), the second
    one with a foreground colour derived from the lanes the first call left
    behind (red byte 229). *)
Theorem same_seed_twice_differs :
  createBuffer opts_a [] process0
    = (Ok (sample_buffer options_a1 grid_a1), process_a1) /\
  createBuffer opts_a [] process_a1
    = (Ok (sample_buffer options_a2 grid_a2), process_a2) /\
  png_data (sample_buffer options_a1 grid_a1) !! 0%nat = Some 255 /\
  png_data (sample_buffer options_a2 grid_a2) !! 0%nat = Some 229 /\
  sample_buffer options_a1 grid_a1 <> sample_buffer options_a2 grid_a2.
Proof.
  assert (B1 : png_data (sample_buffer options_a1 grid_a1) !! 0%nat = Some 255).
  { rewrite sample_buffer_first_byte; [reflexivity | | | reflexivity];
      cbn [o_size o_scale options_a1]; lia. }
  assert (B2 : png_data (sample_buffer options_a2 grid_a2) !! 0%nat = Some 229).
  { rewrite sample_buffer_first_byte; [reflexivity | | | reflexivity];
      cbn [o_size o_scale options_a2]; lia. }
  split; [|split; [|split; [|split]]].
  - apply createBuffer_run with (rs := mkRandSeed 199529 199529 407048259 198753);
      [vm_compute; reflexivity | vm_compute; reflexivity |].
    unfold fits, kMaxLength. cbn [o_size o_scale options_a1]. lia.
  - apply createBuffer_run
      with (rs := mkRandSeed 1634083709 1449769968 1300906928 153163756);
      [vm_compute; reflexivity | vm_compute; reflexivity |].
    unfold fits, kMaxLength. cbn [o_size o_scale options_a2]. lia.
  - exact B1.
  - exact B2.
  - intros E. rewrite E, B2 in B1. discriminate B1.
Qed.

(** C7, evaluated: after a call that supplies [bgColor: [1, 2, 3]], a call
    that omits [bgColor] paints its background pixel with [1, 2, 3], the
    colour that the first call stored in the shared [defaultOptions]. *)
Theorem omitted_bgColor_inherits_previous :
  let p1 := snd (createBuffer opts_bg [] process0) in
  o_bgColor (defaultOptions process0) = (255, 255, 255) /\
  o_bgColor (defaultOptions p1) = (1, 2, 3) /\
  bgColor opts_no_bg = None /\
  fst (createBuffer opts_no_bg [] p1) = Ok (mkPNG 1 1 [1; 2; 3; 255]) /\
  fst (createBuffer opts_no_bg [] process0) = Ok (mkPNG 1 1 [255; 255; 255; 255]).
Proof. vm_compute. repeat split. Qed.

(** In general the background of a call that omits [bgColor] is whatever
    the shared object holds, and every call stores its background there. *)
Lemma bgColor_is_shared optsParam entropy p :
  o_bgColor (defaultOptions (snd (createBuffer optsParam entropy p)))
  = nullish (bgColor optsParam) (o_bgColor (defaultOptions p)).
Proof.
  pose proof (buffer_state_fields optsParam entropy p) as F. cbv zeta in F.
  destruct (fst (createHSL _)) as [[h s] l].
  destruct F as (_ & _ & _ & _ & Eb & _).
  rewrite createBuffer_eq.
  destruct (buffer_state optsParam entropy p) as [options rs].
  destruct (createImageData _ _ rs) as [res rs']; exact Eb.
Qed.

(** ** Sizes and scales that are not positive *)


Section Routes.

(** The encoder throws or returns according to the dimensions alone. *)
Lemma sync_write_dims png data :
  outcome (sync_write (mkPNG (png_width png) (png_height png) data))
  = outcome (sync_write png).
Proof.
  unfold sync_write. cbn [png_width png_height].
  destruct (_ || _); [reflexivity|]. now destruct (alloc _).
Qed.


(** The image phase of [createBuffer] ends like its route. *)
Lemma render_route options imageData :
  outcome (render options imageData)
  = image_route (num (o_size options * o_scale options))
                ((0 <? Z.of_nat (length imageData)) && (0 <? o_scale options))
                (max_count <? o_scale options).
Proof.
  unfold render, image_route.
  destruct (newPNG _ _) as [png| | |]; [|reflexivity|reflexivity|reflexivity].
  cbn [and_then].
  destruct (no_data png && _); [reflexivity|].
  destruct (_ && (max_count <? _)); [reflexivity|]. apply sync_write_dims.
Qed.

Lemma is_array_length_Z n :
  is_array_length (inject_Z n) = negb ((n <? 0) || (4294967295 <? n)).
Proof.
  unfold is_array_length. rewrite Qfloor_Z.
  assert (E : Qeq_bool (inject_Z n) (inject_Z n) = true)
    by (apply Qeq_bool_iff; reflexivity).
  rewrite E. cbn [andb].
  destruct (Z.leb_spec 0 n), (Z.ltb_spec n 0); try lia;
    destruct (Z.leb_spec n 4294967295), (Z.ltb_spec 4294967295 n); try lia;
    reflexivity.
Qed.


Lemma ltb_inject_Z a b : ltb (inject_Z a) (inject_Z b) = (a <? b).
Proof.
  unfold ltb. change (Qnum (inject_Z a) * QDen (inject_Z b)) with (a * 1).
  change (Qnum (inject_Z b) * QDen (inject_Z a)) with (b * 1).
  now rewrite !Z.mul_1_r.
Qed.



(** On a size and a scale that are integers, [createBuffer_route] is the
    outcome and the engine state of [createBuffer]. *)
Lemma createBuffer_route_integer optsParam entropy p :
  let N := nullish (size optsParam) (o_size (defaultOptions p)) in
  let S := nullish (scale optsParam) (o_scale (defaultOptions p)) in
  createBuffer_route (inject_Z N) (inject_Z S)
                     (nullish (seed optsParam) entropy) (randseed p)
  = (outcome (fst (createBuffer optsParam entropy p)),
     randseed (snd (createBuffer optsParam entropy p))).
Proof.
  intros N S.
  pose proof (buffer_state_fields optsParam entropy p) as F. cbv zeta in F.
  destruct (fst (createHSL _)) as [[h s] l].
  destruct F as (EN & ES & _ & _ & _ & _ & Ers).
  fold N in EN. fold S in ES.
  rewrite createBuffer_eq. unfold createBuffer_route.
  rewrite createHSL_state, <- Ers.
  destruct (buffer_state optsParam entropy p) as [options rs].
  cbn [fst snd] in EN, ES |- *. rewrite EN.
  rewrite is_array_length_Z, Qfloor_Z.
  destruct (Z_lt_le_dec N 0) as [Hneg|Hpos];
    [|destruct (Z_lt_le_dec 4294967295 N) as [Hbig|Hsmall]].
  - rewrite createImageData_throws by lia.
    destruct (Z.ltb_spec N 0); [|lia]. reflexivity.
  - rewrite createImageData_throws by lia.
    destruct (Z.ltb_spec N 0); [lia|].
    destruct (Z.ltb_spec 4294967295 N); [|lia]. reflexivity.
  - rewrite createImageData_ok by lia.
    destruct (Z.ltb_spec N 0); [lia|].
    destruct (Z.ltb_spec 4294967295 N); [lia|].
    cbn [orb negb fst snd and_then].
    change 0%Q with (inject_Z 0).
    rewrite render_route, EN, ES, !ltb_inject_Z. reflexivity.
Qed.

End Routes.



(** ** The cell-to-colour mapping *)

(** C10 fails in its premise: [rand()] never returns a value >= 1, and no
    grid built by [createImageData] contains a 3 or a 4. *)
Lemma grid_never_contains_3_or_4 :
  ~ (exists rs, (1 <= fst (rand rs))%Q) /\
  ~ (exists n rs data i,
       fst (createImageData n n rs) = Ok data /\
       (data !! i = Some 3 \/ data !! i = Some 4)).
Proof.
  split.
  - intros [rs H]. pose proof (rand_range rs) as [_ Hlt].
    exact (Qlt_not_le _ _ Hlt H).
  - intros (n & rs & data & i & Hd & Hi).
    pose proof (createImageData_cells n rs data Hd) as F.
    rewrite Forall_lookup in F.
    destruct Hi as [Hi|Hi]; specialize (F i _ Hi); unfold is_cell in F; lia.
Qed.

(** C10, amended: the cell-to-colour mapping of the compositor is total:
    every cell value other than 0 and 1 (3 and 4 included, and a missing
    cell too) falls into the default branch and is rendered with
    [spotColor]. The grids of [createImageData] contain only 0, 1 and 2.
    Every cell is painted with exactly one of [bgColor], [fgColor] and
    [spotColor]: for [N >= 1] and [S >= 1], each pixel of the block of cell
    [(r, c)] holds the bytes of the colour picked for that cell. *)
Theorem cell_to_color_mapping_total (options : OptionsObject)
    (imageData : list Z) :
  let N := o_size options in
  let S := o_scale options in
  (forall cell, cell <> Some 0 -> cell <> Some 1 ->
     pick_color options cell = o_spotColor options) /\
  pick_color options (Some 3) = o_spotColor options /\
  pick_color options (Some 4) = o_spotColor options /\
  (forall cell,
     pick_color options cell = o_bgColor options \/
     pick_color options cell = o_fgColor options \/
     pick_color options cell = o_spotColor options) /\
  (forall n rs data i v,
     fst (createImageData n n rs) = Ok data -> data !! i = Some v ->
     v = 0 \/ v = 1 \/ v = 2) /\
  (1 <= N -> 1 <= S -> length imageData = Z.to_nat (N * N) ->
   forall r c y x,
     0 <= r < N -> 0 <= c < N -> 0 <= y < S -> 0 <= x < S ->
     pixel_at (png_data (sample_buffer options imageData)) (N * S)
              (r * S + y) (c * S + x)
     = let '(red, green, blue) :=
         pick_color options (imageData !! Z.to_nat (r * N + c)) in
       [Some (red mod 256); Some (green mod 256); Some (blue mod 256);
        Some 255]).
Proof.
  intros N S. repeat split.
  - apply pick_color_default.
  - apply pick_color_cases.
  - intros n rs data i v Hd Hv.
    pose proof (createImageData_cells n rs data Hd) as F.
    rewrite Forall_lookup in F. exact (F i v Hv).
  - intros HN HS Hlen r c y x Hr Hc Hy Hx.
    destruct (sample_buffer_painted options imageData HN HS Hlen)
      as (_ & _ & _ & _ & Hp).
    exact (Hp r c y x Hr Hc Hy Hx).
Qed.

Lemma cell_to_color_mapping_total_witness :
  pixel_at (png_data (sample_buffer
                        (mkOptionsObject 2 1 [] (10, 20, 30) (255, 255, 255) (1, 2, 3))
                        [4]))
           2 0 1
  = [Some 1; Some 2; Some 3; Some 255].
Proof.
  pose proof (cell_to_color_mapping_total
                (mkOptionsObject 2 1 [] (10, 20, 30) (255, 255, 255) (1, 2, 3))
                [4]) as H.
  cbv zeta in H. destruct H as (_ & _ & _ & _ & _ & Hp).
  cbn [o_size o_scale] in Hp.
  exact (Hp ltac:(lia) ltac:(lia) eq_refl 0 0 0 1
            ltac:(lia) ltac:(lia) ltac:(lia) ltac:(lia)).
Defined.

(** ** The stored lanes and their 32-bit view *)

(** Only the shift of [createRandSeed] wraps, so the number stored in a lane
    can leave the signed 32-bit range while its 32-bit view follows the
    wrap-around recurrence: after the code units 2252, 20, 10, 2 lane 0
    holds 2^26, and folding a further 0 stores [-2^31 - 2^26], whose 32-bit
    view is [31 * 2^26]. *)
Example stored_lane_outside_int32 :
  let seed := [2252; 0; 0; 0; 20; 0; 0; 0; 10; 0; 0; 0; 2; 0; 0; 0; 0] in
  lane0 (createRandSeed (take 16 seed) randseed0) = 67108864 /\
  lane0 (createRandSeed seed randseed0) = -2214592512 /\
  toInt32 (lane0 (createRandSeed seed randseed0)) = 31 * 67108864 /\
  lane0 (fold31 seed randseed0) = 31 * 67108864.
Proof. vm_compute. repeat split. Qed.

(** * Further properties of the engine *)

Section EngineMore.

Lemma draws_S n rs : draws (Datatypes.S n) rs = snd (rand (draws n rs)).
Proof. reflexivity. Qed.

Lemma rand_lane3_31 rs : lane31 (lane3 (snd (rand rs))).
Proof. unfold rand, lane31. cbn [snd lane3]. apply rand_word_range. Qed.

Lemma rand_shifts rs :
  lane0 (snd (rand rs)) = lane1 rs /\
  lane1 (snd (rand rs)) = lane2 rs /\
  lane2 (snd (rand rs)) = lane3 rs.
Proof. unfold rand. cbn. repeat split. Qed.

End EngineMore.

(** X1: whatever the lanes hold before, after four or more draws every
    lane holds a non-negative 31-bit integer: [rand] writes such a value
    into lane 3 and shifts the older lanes down. *)
Theorem draws_make_lanes_31_bit (rs : RandSeed) (n : nat) :
  (4 <= n)%nat ->
  lane31 (lane0 (draws n rs)) /\ lane31 (lane1 (draws n rs)) /\
  lane31 (lane2 (draws n rs)) /\ lane31 (lane3 (draws n rs)).
Proof.
  intros Hn.
  destruct n as [|[|[|[|m]]]]; try lia.
  rewrite !draws_S. generalize (draws m rs). intros s.
  split; [|split; [|split]].
  - rewrite (proj1 (rand_shifts _)), (proj1 (proj2 (rand_shifts _))),
      (proj2 (proj2 (rand_shifts _))). apply rand_lane3_31.
  - rewrite (proj1 (proj2 (rand_shifts _))), (proj2 (proj2 (rand_shifts _))).
    apply rand_lane3_31.
  - rewrite (proj2 (proj2 (rand_shifts _))). apply rand_lane3_31.
  - apply rand_lane3_31.
Qed.

Lemma draws_make_lanes_31_bit_witness :
  lane31 (lane0 (draws 4 (mkRandSeed (-2214592512) (-1) 4294967296 (-7)))).
Proof.
  exact (proj1 (draws_make_lanes_31_bit
                  (mkRandSeed (-2214592512) (-1) 4294967296 (-7)) 4
                  ltac:(lia))).
Defined.

(** X2: seeding with a concatenation is seeding with its two parts in turn
    exactly when the loop index restarts on the same lane, i.e. when the
    length of the first part is a multiple of four; in general the second
    part is folded in starting at lane [length s1 mod 4]. *)
Theorem createRandSeed_concat (s1 s2 : JSString) (rs : RandSeed) :
  createRandSeed (s1 ++ s2) rs
  = createRandSeed_from (length s1 mod 4) s2 (createRandSeed s1 rs) /\
  ((length s1 mod 4 = 0)%nat ->
   createRandSeed (s1 ++ s2) rs = createRandSeed s2 (createRandSeed s1 rs)).
Proof.
  assert (E : createRandSeed (s1 ++ s2) rs
              = createRandSeed_from (length s1 mod 4) s2 (createRandSeed s1 rs)).
  { unfold createRandSeed. rewrite createRandSeed_from_app. cbn [Nat.add].
    apply createRandSeed_from_mod. symmetry. apply Nat.Div0.mod_mod. }
  split; [exact E|]. intros H0. rewrite E, H0. reflexivity.
Qed.

Lemma createRandSeed_concat_witness :
  createRandSeed (str "abcd" ++ str "e") randseed0
  = createRandSeed (str "e") (createRandSeed (str "abcd") randseed0).
Proof.
  exact (proj2 (createRandSeed_concat (str "abcd") (str "e") randseed0) eq_refl).
Defined.

(** * Further properties of the colour selector *)

Section ColourMore.

Local Open Scope Q_scope.

Lemma floor_eq_iff x k :
  Qfloor x = k <-> inject_Z k <= x /\ x < inject_Z (k + 1).
Proof.
  split.
  - intros <-. split; [apply Qfloor_le | apply Qlt_floor].
  - intros [Hl Hu]. pose proof (floor_bounds x k k Hl Hu). lia.
Qed.

(** A product with a factor 0 is the number 0. *)
Lemma fmul_zero_l x y : x == 0 -> fmul x y = 0.
Proof. intros H. apply fl_zero. rewrite H. ring. Qed.

Lemma fmul_zero_r x y : y == 0 -> fmul x y = 0.
Proof. intros H. apply fl_zero. rewrite H. ring. Qed.

(** Between [p = 0] and [q = 0] every branch of [hue2rgb] is 0. *)
Lemma hue2rgb_zero t : hue2rgb 0 0 t = 0.
Proof.
  unfold hue2rgb. cbv zeta.
  assert (E0 : fsub 0 0 = 0) by reflexivity.
  rewrite E0.
  assert (E6 : fmul 0 6 = 0) by reflexivity.
  rewrite E6.
  repeat match goal with
         | |- context [if ?b then _ else _] => destruct b
         end;
    rewrite ?(fmul_zero_l 0 _ (Qeq_refl 0)); try reflexivity.
Qed.

(** [Math.round(c * 255)] of a channel next to 1. *)
Lemma channel_white c :
  1 - (1 # 1000) <= c <= 1 + (1 # 1000) -> round (fmul c 255) = 255%Z.
Proof.
  intros Hc. pose proof (fmul_close c 255 ltac:(lra)) as H.
  unfold eta in H. unfold round.
  assert (B : (255 <= Qfloor (fmul c 255 + (1 # 2)) <= 255)%Z).
  { apply floor_bounds;
      [change (inject_Z 255) with 255 | change (inject_Z (255 + 1)) with 256];
      lra. }
  lia.
Qed.

(** [p] and [q] of [hslToRgb] at lightness 1. *)
Lemma pq_white s l :
  l == 1 -> 0 <= s <= 1 ->
  let q := if ltb l 0.5 then fmul l (fadd 1 s)
           else fsub (fadd l s) (fmul l s) in
  let p := fsub (fmul 2 l) q in
  (1 - 5 * eta <= p <= 1 + 5 * eta) /\ (1 - 5 * eta <= q <= 1 + 5 * eta).
Proof.
  intros Hl Hs. pose proof eta_small as He. cbv zeta.
  destruct (ltb l 0.5) eqn:E; [apply ltb_true in E; lra|clear E].
  assert (Hls : l * s == s) by (rewrite Hl; ring).
  pose proof (fmul_close 2 l ltac:(lra)) as H2l.
  pose proof (fadd_close l s ltac:(lra)) as Hx1.
  pose proof (fmul_close l s ltac:(lra)) as Hx2.
  set (l2 := fmul 2 l) in *. set (x1 := fadd l s) in *.
  set (x2 := fmul l s) in *.
  pose proof (fsub_close x1 x2 ltac:(lra)) as Hq.
  set (q := fsub x1 x2) in *.
  pose proof (fsub_close l2 q ltac:(lra)) as Hp.
  split; split; lra.
Qed.

End ColourMore.

(** The roundings show in the bytes. At [(0.75, 1, 0.5)] the red channel
    is [0.49999999999999994], and [Math.round] of its product with 255
    gives 127, where the exact value one half would give 128. At saturation
    0 and the lightness [0.5 / 255] the product with 255 is one half again
    and the grey is [[1, 1, 1]]. *)
Example hslToRgb_rounded_channels :
  hslToRgb (3 # 4) 1 (1 # 2) = (127, 0, 255) /\
  hslToRgb 0 0 (fdiv (1 # 2) 255) = (1, 1, 1).
Proof. vm_compute. split; reflexivity. Qed.

(** The same on a seed: [createBuffer] on a fresh process with the seed
    below draws the hue 0.75 and the lightness 0.5, and derives the
    colour [[127, 17, 238]]. *)
Example derived_color_rounded :
  let seed := str "000033400:;;B;65EA8HN:628B?C7527" in
  let '(h, s, l) := fst (createHSL (createRandSeed seed randseed0)) in
  Qred h = (3 # 4)%Q /\ Qred l = (1 # 2)%Q /\
  Qred s = (7795132771126477 # 9007199254740992)%Q /\
  hslToRgb h s l = (127, 17, 238).
Proof. vm_compute. repeat split. Qed.

(** X3: [hslToRgb] maps every hue [h >= 0] with saturation and lightness
    in [0,1] to a triple of bytes. *)
Theorem hslToRgb_unit_cube_to_bytes (h s l : Q) :
  (0 <= h)%Q -> (0 <= s <= 1)%Q -> (0 <= l <= 1)%Q ->
  let '(red, green, blue) := hslToRgb h s l in
  0 <= red <= 255 /\ 0 <= green <= 255 /\ 0 <= blue <= 255.
Proof. intros Hh Hs Hl. exact (hslToRgb_bytes h s l Hh Hs Hl). Qed.

Lemma hslToRgb_unit_cube_to_bytes_witness :
  let '(red, green, blue) := hslToRgb (1 # 3) (1 # 2) (3 # 4) in
  0 <= red <= 255 /\ 0 <= green <= 255 /\ 0 <= blue <= 255.
Proof.
  apply (hslToRgb_unit_cube_to_bytes (1 # 3) (1 # 2) (3 # 4)).
  - unfold Qle. cbn. lia.
  - split; unfold Qle; cbn; lia.
  - split; unfold Qle; cbn; lia.
Defined.

(** X4: the extremes of [hslToRgb]: lightness 0 is black for every hue
    and saturation, and lightness 1 is white for every hue [h >= 0] and
    every saturation in [0,1], with all the roundings of the
    conversion. *)
Theorem hslToRgb_extremes (h s l : Q) :
  ((l == 0)%Q -> hslToRgb h s l = (0, 0, 0)) /\
  ((l == 1)%Q -> (0 <= h)%Q -> (0 <= s <= 1)%Q ->
   hslToRgb h s l = (255, 255, 255)).
Proof.
  split.
  - intros H. unfold hslToRgb. destruct (Qeq_bool s 0%Q).
    + now rewrite (fmul_zero_l l 255%Q H).
    + assert (E : ltb l 0.5%Q = true).
      { unfold ltb. apply Z.ltb_lt. unfold Qeq in H. cbn in *. lia. }
      rewrite E, (fmul_zero_l l _ H), (fmul_zero_r 2%Q l H).
      change (fsub 0 0)%Q with 0%Q. rewrite !hue2rgb_zero. reflexivity.
  - intros H Hh Hs. pose proof eta_small as He. unfold hslToRgb.
    destruct (Qeq_bool s 0%Q).
    + now rewrite (channel_white l) by lra.
    + destruct (pq_white s l H Hs) as [Hp Hq]. cbv zeta in Hp, Hq.
      set (q := if ltb l 0.5%Q then _ else _) in *.
      set (p := fsub (fmul 2%Q l) q) in *.
      pose proof third_close as C.
      assert (Ht1 : (-1 <= fadd h (fdiv 1 3))%Q).
      { pose proof (fl_nonneg (h + fdiv 1 3)%Q ltac:(lra)). unfold fadd. lra. }
      pose proof (hue_arg_lower h Hh) as Ht3.
      pose proof (hue2rgb_range (1 - 5 * eta)%Q (1 + 5 * eta)%Q p q
                    (fadd h (fdiv 1 3))%Q
                    ltac:(lra) ltac:(lra) ltac:(lra) Hp Hq Ht1) as Hr.
      pose proof (hue2rgb_range (1 - 5 * eta)%Q (1 + 5 * eta)%Q p q h
                    ltac:(lra) ltac:(lra) ltac:(lra) Hp Hq ltac:(lra)) as Hg.
      pose proof (hue2rgb_range (1 - 5 * eta)%Q (1 + 5 * eta)%Q p q
                    (fsub h (fdiv 1 3))%Q
                    ltac:(lra) ltac:(lra) ltac:(lra) Hp Hq Ht3) as Hb.
      unfold eta in *.
      rewrite !channel_white by lra. reflexivity.
Qed.

Lemma hslToRgb_extremes_witness :
  hslToRgb (7 # 10) (1 # 2) (0 # 5) = (0, 0, 0) /\
  hslToRgb (7 # 10) (1 # 2) (3 # 3) = (255, 255, 255).
Proof.
  split.
  - apply (proj1 (hslToRgb_extremes (7 # 10) (1 # 2) (0 # 5))). reflexivity.
  - apply (proj2 (hslToRgb_extremes (7 # 10) (1 # 2) (3 # 3)));
      [reflexivity | discriminate | split; discriminate].
Defined.

(** X5: [createHSL] consumes exactly six draws and returns a hue in [0,1),
    a saturation in [0.4,1) and a lightness in [0,1), whatever the engine
    state. *)
Theorem createHSL_ranges_and_cost (rs : RandSeed) :
  snd (createHSL rs) = draws 6 rs /\
  let '(h, s, l) := fst (createHSL rs) in
  (0 <= h < 1 /\ 0.4 <= s < 1 /\ 0 <= l < 1)%Q.
Proof. split; [apply createHSL_state | apply createHSL_range]. Qed.

(** X6: the thresholds of the cell draw: [Math.floor(r * 2.3)] is 0 for
    [r] in [0, 10/23), 1 for [r] in [10/23, 20/23) and 2 for [r] in
    [20/23, 30/23). *)
Theorem cell_of_thresholds (r : Q) :
  (cell_of r = 0 <-> (0 <= r < 10 # 23)%Q) /\
  (cell_of r = 1 <-> ((10 # 23) <= r < 20 # 23)%Q) /\
  (cell_of r = 2 <-> ((20 # 23) <= r < 30 # 23)%Q).
Proof.
  unfold cell_of, floor. rewrite !floor_eq_iff.
  change (inject_Z 0) with 0%Q. change (inject_Z (0 + 1)) with 1%Q.
  change (inject_Z 1) with 1%Q. change (inject_Z (1 + 1)) with 2%Q.
  change (inject_Z 2) with 2%Q. change (inject_Z (2 + 1)) with 3%Q.
  repeat split; intros; lra.
Qed.

(** * Further properties of the grid synthesizer *)

Section GridMore.

(** [createImageData] for any width, when [height] is an array length. *)
Lemma createImageData_valid_height w h rs :
  0 <= h <= 4294967295 ->
  createImageData w h rs
  = (let '(data, rs') :=
       flatMap_rows (Z.to_nat h) (make_row ((w + 1) / 2) (w - (w + 1) / 2)) rs
     in (Ok data, rs')).
Proof.
  intros Hh. unfold createImageData. rewrite ceil_half.
  destruct (Z.ltb_spec h 0); [lia|]. destruct (Z.ltb_spec 4294967295 h); [lia|].
  reflexivity.
Qed.

Lemma createImageData_invalid_height w h rs :
  h < 0 \/ 4294967295 < h -> createImageData w h rs = (RangeError, rs).
Proof.
  intros Hh. unfold createImageData.
  destruct (Z.ltb_spec h 0); [reflexivity|].
  destruct (Z.ltb_spec 4294967295 h); [reflexivity|lia].
Qed.

(** Without a positive width the callback of [flatMap] returns an empty
    row and draws nothing. *)
Lemma make_row_empty w rs :
  w <= 0 -> make_row ((w + 1) / 2) (w - (w + 1) / 2) rs = ([], rs).
Proof.
  intros Hw. rewrite make_row_eq.
  assert ((w + 1) / 2 <= 0) by (Z.div_mod_to_equations; lia).
  replace (Z.to_nat ((w + 1) / 2)) with 0%nat by lia.
  cbn [draw_row]. unfold ret, slice0. now rewrite take_nil.
Qed.

Lemma flatMap_rows_empty f n :
  (forall rs, f rs = ([], rs)) -> forall rs, flatMap_rows n f rs = ([], rs).
Proof.
  intros Hf. induction n as [|n IH]; intros rs; [reflexivity|].
  cbn [flatMap_rows]. unfold bind. rewrite Hf, IH. reflexivity.
Qed.

End GridMore.



(** X8: the degenerate calls of [createImageData]: a height that is not an
    array length throws a RangeError before anything is drawn, and with a
    height of 0 or a width [<= 0] the grid is empty and nothing is drawn. *)
Theorem createImageData_degenerate (w h : Z) (rs : RandSeed) :
  (h < 0 \/ 4294967295 < h -> createImageData w h rs = (RangeError, rs)) /\
  (0 <= h <= 4294967295 -> w <= 0 \/ h = 0 ->
   createImageData w h rs = (Ok [], rs)).
Proof.
  split.
  - apply createImageData_invalid_height.
  - intros Hh Hdeg. rewrite createImageData_valid_height by exact Hh.
    destruct Hdeg as [Hw | ->].
    + rewrite flatMap_rows_empty; [reflexivity|].
      intros s. now apply make_row_empty.
    + reflexivity.
Qed.

Lemma createImageData_degenerate_witness :
  createImageData 7 (-1) (createRandSeed (str "a") randseed0)
  = (RangeError, createRandSeed (str "a") randseed0) /\
  createImageData (-3) 4 (createRandSeed (str "a") randseed0)
  = (Ok [], createRandSeed (str "a") randseed0).
Proof.
  split.
  - apply (proj1 (createImageData_degenerate 7 (-1) _)). left. lia.
  - apply (proj2 (createImageData_degenerate (-3) 4 _)); [lia | left; lia].
Defined.

(** * Further properties of the compositor *)

Section CompositorMore.

(** A pixel coordinate splits into a cell index and a position inside the
    block of the cell. *)
Lemma coord_split n s p :
  1 <= s -> 0 <= p < n * s ->
  0 <= p / s < n /\ 0 <= p mod s < s /\ p = p / s * s + p mod s.
Proof.
  intros Hs Hp.
  pose proof (Z.div_mod p s ltac:(lia)).
  pose proof (Z.mod_pos_bound p s ltac:(lia)).
  repeat split; try lia.
  - apply Z.div_pos; lia.
  - apply Z.div_lt_upper_bound; lia.
Qed.

(** Every byte offset of the buffer is the offset of one channel of one
    pixel of one block. *)
Lemma offset_decompose n s k :
  1 <= n -> 1 <= s -> 0 <= k < 4 * (n * s) * (n * s) ->
  exists r c y x j,
    0 <= r < n /\ 0 <= c < n /\ 0 <= y < s /\ 0 <= x < s /\ 0 <= j < 4 /\
    k = 4 * ((r * s + y) * (n * s) + (c * s + x)) + j.
Proof.
  intros Hn Hs Hk.
  assert (HW : 0 < n * s) by nia.
  pose proof (Z.div_mod k 4 ltac:(lia)) as Ek.
  pose proof (Z.mod_pos_bound k 4 ltac:(lia)) as Bj.
  set (P := k / 4) in *.
  assert (HP : 0 <= P < (n * s) * (n * s)) by nia.
  pose proof (Z.div_mod P (n * s) ltac:(lia)) as EP.
  pose proof (Z.mod_pos_bound P (n * s) ltac:(lia)) as Bpx.
  assert (Bpy : 0 <= P / (n * s) < n * s).
  { split; [apply Z.div_pos; lia | apply Z.div_lt_upper_bound; nia]. }
  destruct (coord_split n s (P / (n * s)) Hs Bpy) as (Hr & Hy & Ey).
  destruct (coord_split n s (P mod (n * s)) Hs Bpx) as (Hc & Hx & Ex).
  exists (P / (n * s) / s), (P mod (n * s) / s),
         (P / (n * s) mod s), (P mod (n * s) mod s), (k mod 4).
  repeat split; first [lia | (rewrite <- Ey, <- Ex; lia)].
Qed.



End CompositorMore.



(** X10: the compositor overwrites every byte: for [N >= 1], [S >= 1] and a
    grid of [N * N] cells, the buffer it leaves does not depend on what the
    buffer of [4 * (N * S)^2] bytes held before. *)
Theorem composite_overwrites_whole_buffer (options : OptionsObject)
    (imageData data1 data2 : list Z) :
  let N := o_size options in
  let S := o_scale options in
  1 <= N -> 1 <= S -> length imageData = Z.to_nat (N * N) ->
  length data1 = Z.to_nat (4 * (N * S) * (N * S)) ->
  length data2 = Z.to_nat (4 * (N * S) * (N * S)) ->
  composite options imageData data1 = composite options imageData data2.
Proof.
  intros N S HN HS Hlen H1 H2. apply list_eq. intros i.
  destruct (Nat.lt_ge_cases i (Z.to_nat (4 * (N * S) * (N * S)))) as [Hi|Hi].
  - destruct (offset_decompose N S (Z.of_nat i) HN HS ltac:(lia))
      as (r & c & y & x & j & Hr & Hc & Hy & Hx & Hj & Ei).
    pose proof (composite_byte options imageData HN HS Hlen data1 r c y x j
                  H1 Hr Hc Hy Hx Hj) as B1.
    pose proof (composite_byte options imageData HN HS Hlen data2 r c y x j
                  H2 Hr Hc Hy Hx Hj) as B2.
    fold N S in B1, B2. rewrite <- Ei, Nat2Z.id in B1, B2.
    now rewrite B1, B2.
  - rewrite !lookup_ge_None_2; [reflexivity| |];
      rewrite composite_length; lia.
Qed.

Lemma composite_overwrites_whole_buffer_witness :
  composite (mkOptionsObject 1 2 [] (10, 20, 30) (255, 255, 255) (1, 2, 3))
            [0; 1; 1; 0] (repeat 0 16)
  = composite (mkOptionsObject 1 2 [] (10, 20, 30) (255, 255, 255) (1, 2, 3))
              [0; 1; 1; 0] (repeat 77 16).
Proof.
  apply (composite_overwrites_whole_buffer
           (mkOptionsObject 1 2 [] (10, 20, 30) (255, 255, 255) (1, 2, 3))
           [0; 1; 1; 0] (repeat 0 16) (repeat 77 16));
    cbn [o_size o_scale]; first [lia | reflexivity].
Defined.

(** * Further properties of [createBuffer] *)

Section OptionsMore.

(** The shared object that a call leaves behind is the merged options
    object, whether the call returns or throws. *)
Lemma createBuffer_leaves_options optsParam entropy p :
  defaultOptions (snd (createBuffer optsParam entropy p))
  = fst (buffer_state optsParam entropy p).
Proof.
  rewrite createBuffer_eq.
  destruct (buffer_state optsParam entropy p) as [options rs].
  destruct (createImageData _ _ rs) as [res rs']; reflexivity.
Qed.

Lemma options_after_call optsParam entropy p :
  let o := defaultOptions (snd (createBuffer optsParam entropy p)) in
  o_size o = nullish (size optsParam) (o_size (defaultOptions p)) /\
  o_scale o = nullish (scale optsParam) (o_scale (defaultOptions p)) /\
  o_bgColor o = nullish (bgColor optsParam) (o_bgColor (defaultOptions p)).
Proof.
  cbv zeta. rewrite createBuffer_leaves_options.
  pose proof (buffer_state_fields optsParam entropy p) as F. cbv zeta in F.
  destruct (fst (createHSL _)) as [[h s] l].
  destruct F as (EN & ES & _ & _ & Eb & _). repeat split; assumption.
Qed.

Lemma nullish_None {A} (b : A) : nullish None b = b.
Proof. reflexivity. Qed.

End OptionsMore.

(** X11: size, scale and bgColor are sticky: a call that omits them runs
    with the size, scale and background that the previous call ran with,
    whatever the other options and the random seeds of the two calls. *)
Theorem omitted_size_scale_bgColor_come_from_previous_call
    (opts1 opts2 : Options) (entropy1 entropy2 : JSString) (p : Process) :
  size opts2 = None -> scale opts2 = None -> bgColor opts2 = None ->
  let o1 := defaultOptions (snd (createBuffer opts1 entropy1 p)) in
  let o2 := defaultOptions
              (snd (createBuffer opts2 entropy2
                      (snd (createBuffer opts1 entropy1 p)))) in
  o_size o2 = o_size o1 /\ o_scale o2 = o_scale o1 /\
  o_bgColor o2 = o_bgColor o1 /\
  o_size o1 = nullish (size opts1) (o_size (defaultOptions p)) /\
  o_scale o1 = nullish (scale opts1) (o_scale (defaultOptions p)) /\
  o_bgColor o1 = nullish (bgColor opts1) (o_bgColor (defaultOptions p)).
Proof.
  intros Hs Hc Hb. cbv zeta.
  destruct (options_after_call opts1 entropy1 p) as (E1 & E2 & E3).
  destruct (options_after_call opts2 entropy2
              (snd (createBuffer opts1 entropy1 p))) as (F1 & F2 & F3).
  rewrite Hs, nullish_None in F1. rewrite Hc, nullish_None in F2.
  rewrite Hb, nullish_None in F3.
  repeat split; assumption.
Qed.

Lemma omitted_size_scale_bgColor_come_from_previous_call_witness :
  let o2 := defaultOptions
              (snd (createBuffer opts_a []
                      (snd (createBuffer opts_bg [] process0)))) in
  o_size o2 = 1 /\ o_scale o2 = 1 /\ o_bgColor o2 = (1, 2, 3).
Proof.
  destruct (omitted_size_scale_bgColor_come_from_previous_call
              opts_bg opts_a [] [] process0 eq_refl eq_refl eq_refl)
    as (E1 & E2 & E3 & F1 & F2 & F3).
  cbv zeta. rewrite E1, E2, E3, F1, F2, F3. repeat split.
Defined.

(** X12: [createBuffer] never reads the seed, the fgColor or the spotColor
    held by the shared options object: two processes that agree on the
    lanes and on the stored scale, size and bgColor give the same result and
    the same state. *)
Theorem createBuffer_ignores_stored_seed_fg_spot (optsParam : Options)
    (entropy : JSString) (rs : RandSeed) (o o' : OptionsObject) :
  o_scale o = o_scale o' -> o_size o = o_size o' ->
  o_bgColor o = o_bgColor o' ->
  createBuffer optsParam entropy (mkProcess rs o)
  = createBuffer optsParam entropy (mkProcess rs o').
Proof.
  intros Hc Hs Hb. unfold createBuffer. cbn [defaultOptions randseed].
  cbn [o_scale o_size o_seed o_fgColor o_bgColor o_spotColor].
  now rewrite Hc, Hs, Hb.
Qed.

Lemma createBuffer_ignores_stored_seed_fg_spot_witness :
  createBuffer opts_no_bg [] process0
  = createBuffer opts_no_bg []
      (mkProcess randseed0
         (mkOptionsObject 24 7 (str "zzz") (9, 9, 9) (255, 255, 255) (8, 8, 8))).
Proof.
  apply (createBuffer_ignores_stored_seed_fg_spot opts_no_bg [] randseed0);
    reflexivity.
Defined.

Section ViewMore.

Lemma respects32_ret {A} (a : A) : respects32 (ret a).
Proof. intros x y H. split; [reflexivity | exact H]. Qed.

Lemma respects32_bind {A B} (m : Engine A) (k : A -> Engine B) :
  respects32 m -> (forall a, respects32 (k a)) -> respects32 (bind m k).
Proof.
  intros Hm Hk x y H. unfold bind.
  destruct (Hm x y H) as [Ef Es].
  destruct (m x) as [a x'], (m y) as [a' y']. cbn [fst snd] in *. subst a'.
  exact (Hk a x' y' Es).
Qed.

Lemma respects32_rand : respects32 rand.
Proof.
  intros x y H.
  destruct (rand_lanes32 x) as [Fx Sx]. destruct (rand_lanes32 y) as [Fy Sy].
  split.
  - now rewrite <- Fx, <- Fy, H.
  - now rewrite <- Sx, <- Sy, H.
Qed.

Lemma respects32_draw_row n : respects32 (draw_row n).
Proof.
  induction n as [|n IH]; [apply respects32_ret|].
  cbn [draw_row]. apply respects32_bind; [apply respects32_rand|].
  intros r. apply respects32_bind; [exact IH|]. intros row. apply respects32_ret.
Qed.

Lemma respects32_make_row dw mw : respects32 (make_row dw mw).
Proof.
  unfold make_row. apply respects32_bind; [apply respects32_draw_row|].
  intros row. apply respects32_ret.
Qed.

Lemma respects32_flatMap_rows n f :
  respects32 f -> respects32 (flatMap_rows n f).
Proof.
  intros Hf. induction n as [|n IH]; [apply respects32_ret|].
  cbn [flatMap_rows]. apply respects32_bind; [exact Hf|].
  intros row. apply respects32_bind; [exact IH|]. intros rest. apply respects32_ret.
Qed.

Lemma respects32_createImageData w h : respects32 (createImageData w h).
Proof.
  unfold createImageData. destruct (_ || _); [apply respects32_ret|].
  apply respects32_bind;
    [apply respects32_flatMap_rows, respects32_make_row|].
  intros data. apply respects32_ret.
Qed.

Lemma respects32_createHSL : respects32 createHSL.
Proof.
  unfold createHSL.
  repeat (apply respects32_bind; [apply respects32_rand | intros ?]).
  apply respects32_ret.
Qed.

End ViewMore.

Section ZeroEngine.


Lemma draws_zero n : draws n randseed0 = randseed0.
Proof.
  induction n as [|n IH]; [reflexivity|].
  rewrite draws_S, IH. reflexivity.
Qed.





End ZeroEngine.



(** * Stores, colliding seeds and scaling *)

(** X15: no store of the compositor falls outside the buffer: the loops of
    [composite] perform the stores [all_writes] in order, and for [N >= 1],
    [S >= 1] and a grid of [N * N] cells every offset they write lies in
    [0, 4 * (N * S)^2), so nothing is dropped. *)
Theorem composite_stores_in_bounds (options : OptionsObject)
    (imageData : list Z) :
  let N := o_size options in
  let S := o_scale options in
  1 <= N -> 1 <= S -> length imageData = Z.to_nat (N * N) ->
  (forall data,
     composite options imageData data
     = put_all (all_writes options imageData) data) /\
  forall o v, (o, v) ∈ all_writes options imageData ->
    0 <= o < 4 * (N * S) * (N * S).
Proof.
  intros N S HN HS Hlen. split; [intros data; apply composite_writes|].
  intros o v Hin.
  apply elem_of_all_writes in Hin
    as (i & y & x & j & Hi & Hy & Hx & Hj & -> & _).
  fold N S in Hy, Hx |- *.
  rewrite Hlen, Z2Nat.id in Hi by nia.
  pose proof (Z.div_mod i N ltac:(lia)) as Ei.
  pose proof (Z.mod_pos_bound i N ltac:(lia)) as Bc.
  assert (Br : 0 <= i / N < N)
    by (split; [apply Z.div_pos; lia | apply Z.div_lt_upper_bound; nia]).
  assert (Ei' : i = i / N * N + i mod N) by lia.
  pose proof (cell_idx_block options imageData HN Hlen (i / N) (i mod N) Bc)
    as Eidx.
  fold N S in Eidx. rewrite <- Ei' in Eidx. rewrite Eidx.
  pose proof (block_coord_bound N S (i mod N) x Bc Hx).
  pose proof (block_coord_bound N S (i / N) y Br Hy).
  nia.
Qed.

Lemma composite_stores_in_bounds_witness :
  0 <= 15 < 4 * (2 * 1) * (2 * 1).
Proof.
  apply (proj2 (composite_stores_in_bounds
                  (mkOptionsObject 1 2 [] (10, 20, 30) (255, 255, 255) (1, 2, 3))
                  [0; 1; 1; 0] ltac:(cbn; lia) ltac:(cbn; lia) eq_refl)
               15 255).
  apply elem_of_all_writes. exists 3, 0, 0, 3.
  cbn. repeat split; lia.
Defined.

Section Collisions.

(** Two code units four places apart go to the same lane, and
    [31 * (v + 1) + (b - 31) = 31 * v + b]. *)
Lemma wrap31_shift l a b :
  toInt32 (31 * toInt32 (31 * l + (a + 1)) + (b - 31))
  = toInt32 (31 * toInt32 (31 * l + a) + b).
Proof.
  destruct (toInt32_decomp (31 * l + (a + 1))) as [k Hk].
  destruct (toInt32_decomp (31 * l + a)) as [k' Hk'].
  apply (toInt32_congr _ _ (31 * (k - k'))). rewrite Hk, Hk'. lia.
Qed.

Lemma fold31_five i a x y z b rs :
  fold31_from i [a + 1; x; y; z; b - 31] rs
  = fold31_from i [a; x; y; z; b] rs.
Proof.
  assert (Hi : (i mod 4 < 4)%nat) by (apply Nat.mod_upper_bound; lia).
  rewrite (fold31_from_mod _ i (i mod 4)%nat),
          (fold31_from_mod [a; x; y; z; b] i (i mod 4)%nat)
    by (symmetry; apply Nat.Div0.mod_mod).
  destruct (i mod 4)%nat as [|[|[|[|k]]]]; try lia;
    cbn [fold31_from]; unfold fold31_step;
    cbn [Nat.modulo Nat.divmod fst snd Nat.sub get_lane set_lane
           lane0 lane1 lane2 lane3];
    now rewrite wrap31_shift.
Qed.

(** What [createBuffer] returns is decided by the 32-bit view of the lanes
    after seeding, together with the merged options. *)
Lemma createBuffer_by_seeded_view opts opts' entropy entropy' p p' :
  size opts = size opts' -> scale opts = scale opts' ->
  fgColor opts = fgColor opts' -> bgColor opts = bgColor opts' ->
  spotColor opts = spotColor opts' ->
  o_size (defaultOptions p) = o_size (defaultOptions p') ->
  o_scale (defaultOptions p) = o_scale (defaultOptions p') ->
  o_bgColor (defaultOptions p) = o_bgColor (defaultOptions p') ->
  lanes32 (createRandSeed (nullish (seed opts) entropy) (randseed p))
  = lanes32 (createRandSeed (nullish (seed opts') entropy') (randseed p')) ->
  fst (createBuffer opts entropy p) = fst (createBuffer opts' entropy' p').
Proof.
  intros Hsz Hsc Hfg Hbg Hsp Dsz Dsc Dbg Hseed.
  rewrite !createBuffer_eq. unfold buffer_state.
  rewrite <- Hsz, <- Hsc, <- Hfg, <- Hbg, <- Hsp, <- Dsz, <- Dsc, <- Dbg.
  destruct (respects32_createHSL _ _ Hseed) as [Ehsl Ers].
  destruct (createHSL (createRandSeed _ (randseed p))) as [[[h s] l] r1].
  destruct (createHSL (createRandSeed _ (randseed p'))) as [[[h' s'] l'] r1'].
  cbn [fst snd] in Ehsl, Ers. injection Ehsl as -> -> ->.
  cbn [o_size].
  destruct (respects32_createImageData
              (nullish (size opts) (o_size (defaultOptions p)))
              (nullish (size opts) (o_size (defaultOptions p))) _ _ Ers)
    as [Eg _].
  destruct (createImageData _ _ r1) as [res r2].
  destruct (createImageData _ _ r1') as [res' r2'].
  cbn [fst snd] in Eg. subst res'.
  reflexivity.
Qed.

End Collisions.

(** X16: seeds are hashed, not identified. Raising one code unit by 1 and
    lowering the code unit four places later by 31 leaves the 32-bit view
    of the lanes after seeding unchanged, and with it what [createBuffer]
    returns, for any surrounding text and any options, as long as the
    lanes stay within 2^53 in magnitude while the seed is folded
    ([M + rounds n * seed_growth <= 2^53] for lanes that start within [M]
    and a seed of [n] code units). *)
Theorem seeds_collide (pre post : JSString) (a x y z b : Z)
    (optsParam : Options) (p : Process) (M : Z) :
  let seed1 := pre ++ [a; x; y; z; b] ++ post in
  let seed2 := pre ++ [a + 1; x; y; z; b - 31] ++ post in
  let with_seed sd :=
    mkOptions (size optsParam) (scale optsParam) (Some sd)
              (fgColor optsParam) (bgColor optsParam) (spotColor optsParam) in
  lanes_within M (randseed p) ->
  Forall code_unit seed1 -> Forall code_unit seed2 ->
  M + rounds (length seed1) * seed_growth <= 9007199254740992 ->
  lanes32 (createRandSeed seed2 (randseed p))
  = lanes32 (createRandSeed seed1 (randseed p)) /\
  fst (createBuffer (with_seed seed2) [] p)
  = fst (createBuffer (with_seed seed1) [] p).
Proof.
  cbv zeta. intros Hrs Hc1 Hc2 HM.
  assert (Hlen : length (pre ++ [a + 1; x; y; z; b - 31] ++ post)
                 = length (pre ++ [a; x; y; z; b] ++ post))
    by (rewrite !length_app; reflexivity).
  assert (E : lanes32 (createRandSeed
                         (pre ++ [a + 1; x; y; z; b - 31] ++ post) (randseed p))
              = lanes32 (createRandSeed
                           (pre ++ [a; x; y; z; b] ++ post) (randseed p))).
  { unfold createRandSeed.
    destruct (createRandSeed_from_rounds _ _ 0 _ M eq_refl Hrs Hc1 HM)
      as [-> _].
    destruct (createRandSeed_from_rounds _ _ 0 _ M eq_refl Hrs Hc2
                ltac:(rewrite Hlen; exact HM)) as [-> _].
    rewrite !fold31_from_app. now rewrite fold31_five. }
  split; [exact E|].
  apply createBuffer_by_seeded_view; try reflexivity. exact E.
Qed.

Lemma seeds_collide_witness :
  lanes32 (createRandSeed (str "xbaaaAy") randseed0)
  = lanes32 (createRandSeed (str "xaaaa`y") randseed0) /\
  fst (createBuffer (mkOptions None None (Some (str "xbaaaAy")) None None None)
                    [] process0)
  = fst (createBuffer (mkOptions None None (Some (str "xaaaa`y")) None None None)
                      [] process0).
Proof.
  apply (seeds_collide [120] [121] 97 97 97 97 96
           (mkOptions None None None None None None) process0 0).
  - unfold lanes_within. cbn. lia.
  - repeat (apply Forall_cons_2; [unfold code_unit; lia|]). apply Forall_nil_2.
  - repeat (apply Forall_cons_2; [unfold code_unit; lia|]). apply Forall_nil_2.
  - vm_compute. discriminate.
Defined.

(** Beyond 2^31 the width of the image is not the product of size and
    scale: at [size: 1] and [scale: 2^32 + 1] pngjs keeps
    [(2^32 + 1) | 0 = 1], and the call returns an image one pixel wide once
    its loops are through. *)
Example wrapped_product_width :
  exists png p',
    createBuffer (mkOptions (Some 1) (Some 4294967297) (Some []) None None None)
                 [] process0 = (Ok png, p') /\
    png_width png = 1.
Proof.
  set (opts := mkOptions (Some 1) (Some 4294967297) (Some []) None None None).
  pose proof (buffer_state_fields opts [] process0) as F. cbv zeta in F.
  destruct (fst (createHSL _)) as [[h s] l].
  destruct F as (EN & ES & _).
  rewrite createBuffer_eq.
  destruct (buffer_state opts [] process0) as [options rs].
  cbn [fst snd nullish size scale opts] in EN, ES. rewrite EN.
  rewrite createImageData_ok by lia. cbn [and_then].
  rewrite render_positive.
  - eexists _, _. split; [reflexivity|]. cbn [png_width].
    rewrite EN, ES. reflexivity.
  - rewrite EN, ES. unfold fits. split; vm_compute; [reflexivity|discriminate].
  - rewrite ES. unfold max_count. lia.
Qed.


